(** * Streaming completions client of Arc 4.1: SSE decoder, session
    controller and transcript reconciler.

    Shallow embedding of
    - [frontend/src/api/completionsApi.ts] ([createTimeoutController],
      [streamCompletionWithEvents]) and
    - the streaming part of [frontend/src/App.tsx] ([handleSendMessage],
      its callbacks, [updateBotMessage], [handleRetry]).

    Strings are the JavaScript strings of the code, one [ascii] per code
    unit.  [TextDecoder.decode(value, {stream: true})] is modelled on the
    decoded text: a chunk is the text it decodes to.  [JSON.parse] is a
    parameter of the development ([JSON_parse], [None] when it throws).
    Time is in milliseconds since the call of [streamCompletionWithEvents],
    i.e. since [createTimeoutController] armed the timer. *)

From Stdlib Require Import String Ascii List ZArith Bool Lia.
From Stdlib Require Import DecimalString Permutation.
From Stdlib Require DecimalZ.
Import ListNotations.
Open Scope string_scope.

(* ------------------------------------------------------------------ *)
(** ** JavaScript values the code inspects *)

#[local] Set Warnings "-register-all".

(** The values [JSON.parse] produces. Numbers are kept integral. *)
Inductive json : Type :=
| JNull
| JBool (b : bool)
| JNum (n : Z)
| JStr (s : string)
| JArr (l : list json)
| JObj (fields : list (string * json)).

(** Last binding of a key wins, as in [JSON.parse]. *)
Fixpoint assoc_last (k : string) (fs : list (string * json)) : option json :=
  match fs with
  | [] => None
  | (k', v) :: fs' =>
      match assoc_last k fs' with
      | Some w => Some w
      | None => if String.eqb k k' then Some v else None
      end
  end.

(** Property access [v.k]: [None] when it throws (on [null]),
    [Some None] when the property is [undefined]. *)
Definition get_prop (v : json) (k : string) : option (option json) :=
  match v with
  | JNull => None
  | JObj fs => Some (assoc_last k fs)
  | _ => Some None
  end.

(** JavaScript truthiness of a possibly-undefined value. *)
Definition truthy (v : option json) : bool :=
  match v with
  | None | Some JNull => false
  | Some (JBool b) => b
  | Some (JNum n) => negb (Z.eqb n 0)
  | Some (JStr s) => negb (String.eqb s "")
  | Some (JArr _) | Some (JObj _) => true
  end.

Definition string_of_Z (z : Z) : string :=
  NilZero.string_of_int (Z.to_int z).

Fixpoint join_comma (l : list string) : string :=
  match l with
  | [] => ""
  | [x] => x
  | x :: l' => x ++ "," ++ join_comma l'
  end.

(** [String(v)], as used by string concatenation and [new Error(v)]. *)
Fixpoint js_to_string (v : json) : string :=
  match v with
  | JNull => "null"
  | JBool true => "true"
  | JBool false => "false"
  | JNum n => string_of_Z n
  | JStr s => s
  | JArr l =>
      join_comma
        (map (fun x => match x with JNull => "" | _ => js_to_string x end) l)
  | JObj _ => "[object Object]"
  end.

(* ------------------------------------------------------------------ *)
(** ** String primitives *)

Definition nl : ascii := "010"%char.

(** [s.split('\n')]: never empty. *)
Fixpoint split_nl (s : string) : list string :=
  match s with
  | EmptyString => [EmptyString]
  | String c s' =>
      let rest := split_nl s' in
      if Ascii.eqb c nl then EmptyString :: rest
      else match rest with
           | x :: xs => String c x :: xs
           | [] => [String c EmptyString]
           end
  end.

(** [s.startsWith(p)] *)
Definition startsWith (s p : string) : bool := String.prefix p s.

(** [s.slice(n)] *)
Definition slice (s : string) (n : nat) : string :=
  substring n (String.length s - n) s.

(** White space removed by [String.prototype.trim] (code units below 256). *)
Definition is_ws (c : ascii) : bool :=
  match nat_of_ascii c with
  | 9 | 10 | 11 | 12 | 13 | 32 | 160 => true
  | _ => false
  end.

Fixpoint trim_start (s : string) : string :=
  match s with
  | EmptyString => EmptyString
  | String c s' => if is_ws c then trim_start s' else s
  end.

Fixpoint rev_string (s : string) (acc : string) : string :=
  match s with
  | EmptyString => acc
  | String c s' => rev_string s' (String c acc)
  end.

Definition trim (s : string) : string :=
  rev_string (trim_start (rev_string (trim_start s) EmptyString)) EmptyString.

(** [s.includes(sub)] *)
Definition includes (s sub : string) : bool :=
  match index 0 sub s with Some _ => true | None => false end.

(* ------------------------------------------------------------------ *)
(** ** Callbacks, effects and decoder state *)

(** [Source] as built by the [sources] case of the switch; a field the
    payload lacks is [undefined] ([None]). *)
Record Source := mkSource {
  src_id : option json;
  src_title : option json;
  src_content : option json;
  src_similarity : option json;
  src_type : option json
}.

(** [CompletionCallbacks]; [OnError] carries the [message] of its [Error]. *)
Inductive callback : Type :=
| OnContent (chunk : json)
| OnReasoning (chunk : json)
| OnSources (sources : list Source)
| OnComplete
| OnError (message : string).

(** Observable effects of a session, in program order. *)
Inductive action : Type :=
| Call (c : callback)
| ClearTimeout        (* clear() of createTimeoutController *)
| TimerFires          (* the setTimeout callback runs controller.abort() *)
| ReleaseLock.        (* reader.releaseLock() in the finally block *)

(** The loop-local variables [currentEvent] and [hasReceivedContent]. *)
Record lstate := mkL {
  currentEvent : string;
  hasReceivedContent : bool
}.

Definition init_lstate : lstate := mkL "" false.

(** Whether the loop goes on, or a [return] left [streamCompletionWithEvents]. *)
Inductive flow : Type :=
| Continue (st : lstate)
| Return.

(** Thrown values: an [Error] (name and message), or any other value
    (its [String(error)]). *)
Inductive exn : Type :=
| ExnError (name message : string)
| ExnValue (repr : string).

(** One [reader.read()] outcome. *)
Inductive read_result : Type :=
| RChunk (text : string)
| REnd
| RThrow (e : exn).

(** Outcome of [await response.json()] on a failed response. *)
Inductive error_body : Type :=
| EBJson (v : json)
| EBInvalid          (* response.json() rejects *)
| EBStalled.         (* response.json() never settles *)

(** A [fetch] response. [body = None] is a null [response.body]; otherwise
    the successive reads, each with the time it settles; once the list is
    exhausted the next read never settles. *)
Record Response := mkResponse {
  ok : bool;
  status : Z;
  statusText : string;
  error_json : error_body;
  body : option (list (Z * read_result))
}.

Inductive fetch_result : Type :=
| FResp (r : Response)
| FThrow (e : exn).

(** Whether the promise of [streamCompletionWithEvents] settles. *)
Inductive session_end : Type :=
| Settled
| Pending.

Definition REQUEST_TIMEOUT_MS : Z := 30000.

(** What an aborted [fetch] or body read rejects with. *)
Definition abort_error : exn := ExnError "AbortError" "signal is aborted without reason".

Section Decoder.

(** [JSON.parse]: [None] when it throws. *)
Variable JSON_parse : string -> option json.

Definition map_source (s : json) : option Source :=
  match get_prop s "id", get_prop s "title", get_prop s "content",
        get_prop s "similarity", get_prop s "type" with
  | Some i, Some t, Some c, Some sim, Some ty => Some (mkSource i t c sim ty)
  | _, _, _, _, _ => None
  end.

(** [v.k] of a value other than [null]: an object's own field, and
    [undefined] for the other values. *)
Definition field (v : json) (k : string) : option json :=
  match v with JObj fs => assoc_last k fs | _ => None end.

(** [data.map(...)]: [None] when one element throws. *)
Fixpoint map_sources (l : list json) : option (list Source) :=
  match l with
  | [] => Some []
  | s :: l' =>
      match map_source s, map_sources l' with
      | Some x, Some xs => Some (x :: xs)
      | _, _ => None
      end
  end.

Definition skip (st : lstate) : list action * flow := ([], Continue st).

(** The [switch (currentEvent)] on a parsed payload; a [TypeError] thrown
    by a property access is caught by the surrounding [catch], which keeps
    the effects made before it and goes on with the next line. *)
Definition dispatch (st : lstate) (data : json) : list action * flow :=
  let ev := currentEvent st in
  if String.eqb ev "content" then
    match get_prop data "text" with
    | Some (Some t) =>
        if truthy (Some t)
        then ([Call (OnContent t)], Continue (mkL ev true))
        else skip st
    | _ => skip st
    end
  else if String.eqb ev "reasoning" then
    match get_prop data "text" with
    | Some (Some t) =>
        if truthy (Some t) then ([Call (OnReasoning t)], Continue st) else skip st
    | _ => skip st
    end
  else if String.eqb ev "sources" then
    match data with
    | JArr l =>
        match map_sources l with
        | Some srcs => ([Call (OnSources srcs)], Continue st)
        | None => skip st
        end
    | _ => skip st
    end
  else if String.eqb ev "error" then
    match get_prop data "message" with
    | Some m =>
        let msg := match m with
                   | Some v => if truthy (Some v) then js_to_string v
                               else "Unknown error from server"
                   | None => "Unknown error from server"
                   end in
        ([ClearTimeout; Call (OnError msg)], Return)
    | None => ([ClearTimeout], Continue st)   (* [clearTimeout()] ran before [data.message] threw *)
    end
  else if String.eqb ev "done" then
    ([ClearTimeout; Call OnComplete], Return)
  else skip st.

(** Body of [for (const line of lines)]. *)
Definition process_line (st : lstate) (line : string) : list action * flow :=
  if startsWith line "event: " then
    ([], Continue (mkL (trim (slice line 7)) (hasReceivedContent st)))
  else if startsWith line "data: " then
    match JSON_parse (slice line 6) with
    | Some data => dispatch st data
    | None => skip st
    end
  else if String.eqb line "" then
    ([], Continue (mkL "" (hasReceivedContent st)))
  else skip st.

Fixpoint process_lines (st : lstate) (lines : list string) : list action * flow :=
  match lines with
  | [] => ([], Continue st)
  | l :: ls =>
      let (a, f) := process_line st l in
      match f with
      | Continue st' => let (a', f') := process_lines st' ls in ((a ++ a')%list, f')
      | Return => (a, Return)
      end
  end.

(** One iteration of [while (true)] on a received chunk:
    [buffer += chunk; lines = buffer.split('\n'); buffer = lines.pop() || '']
    then the [for] loop. Returns the effects, the flow and the new buffer. *)
Definition feed_chunk (buffer : string) (st : lstate) (chunk : string)
  : list action * flow * string :=
  let lines := split_nl (buffer ++ chunk) in
  let (a, f) := process_lines st (removelast lines) in
  (a, f, last lines "").

(** How the [while (true)] loop is left. *)
Inductive loop_exit : Type :=
| LoopReturned              (* a [return] in the [done] or [error] case *)
| LoopEnd (st : lstate)     (* [if (done) break;] *)
| LoopThrow (e : exn)       (* [reader.read()] rejected *)
| LoopHang.                 (* a read that never settles, with no timer left *)

(** [clearTimeout()] among the effects. *)
Definition is_clear (x : action) : bool := match x with ClearTimeout => true | _ => false end.

(** The read loop. [armed] tells whether the timer armed at time 0 is
    still pending. While it is, a read that settles at or after
    [REQUEST_TIMEOUT_MS], or never, is overtaken by [controller.abort()]
    and rejects with [abort_error]. Once a line has run [clearTimeout()]
    without returning (an [error] frame whose payload is [null]), nothing
    aborts the reads: each is processed whenever it settles, and one that
    never settles leaves the loop waiting for ever. *)
Fixpoint read_loop (armed : bool) (buffer : string) (st : lstate)
    (reads : list (Z * read_result)) : list action * loop_exit :=
  match reads with
  | [] => if armed then ([TimerFires], LoopThrow abort_error) else ([], LoopHang)
  | (t, r) :: reads' =>
      if armed && Z.leb REQUEST_TIMEOUT_MS t then ([TimerFires], LoopThrow abort_error)
      else match r with
           | REnd => ([], LoopEnd st)
           | RThrow e => ([], LoopThrow e)
           | RChunk c =>
               match feed_chunk buffer st c with
               | (a, Return, _) => (a, LoopReturned)
               | (a, Continue st', buffer') =>
                   let (a', ex) := read_loop (armed && negb (existsb is_clear a)) buffer' st' reads' in
                   ((a ++ a')%list, ex)
               end
           end
  end.

(** The outer [catch (error)]: [clearTimeout()] and the classification. *)
Definition error_message (e : exn) : string :=
  match e with
  | ExnError name msg =>
      if String.eqb name "AbortError" then "Request timed out. Please try again."
      else if includes msg "Failed to fetch" || includes msg "NetworkError"
      then "Network error. Please check your connection."
      else msg
  | ExnValue repr => repr
  end.

Definition catch_error (e : exn) : list action :=
  [ClearTimeout; Call (OnError (error_message e))].

(** [String(v)] of a possibly-undefined value. *)
Definition value_string (v : option json) : string :=
  match v with Some x => js_to_string x | None => "undefined" end.

(** [errorMessage] of the [!response.ok] branch; [None] while
    [response.json()] has not settled. *)
Definition http_error_message (r : Response) : option string :=
  let fallback := "HTTP " ++ string_of_Z (status r) ++ ": " ++ statusText r in
  match error_json r with
  | EBStalled => None
  | EBInvalid => Some fallback
  | EBJson d =>
      match get_prop d "detail", get_prop d "message" with
      | Some det, Some msg =>
          Some (if truthy det then value_string det
                else if truthy msg then value_string msg
                else "HTTP " ++ string_of_Z (status r))
      | _, _ => Some fallback
      end
  end.

(** [streamCompletionWithEvents], given when [fetch] settles ([None]: never)
    and with what. *)
Definition streamCompletionWithEvents (fetched : option (Z * fetch_result))
  : list action * session_end :=
  match fetched with
  | None => (TimerFires :: catch_error abort_error, Settled)
  | Some (t, fr) =>
      if Z.leb REQUEST_TIMEOUT_MS t then (TimerFires :: catch_error abort_error, Settled)
      else match fr with
           | FThrow e => (catch_error e, Settled)
           | FResp r =>
               if negb (ok r) then
                 match http_error_message r with
                 | None => ([ClearTimeout], Pending)
                 | Some m => (ClearTimeout :: catch_error (ExnError "Error" m), Settled)
                 end
               else match body r with
                    | None =>
                        (ClearTimeout :: catch_error (ExnError "Error" "No response body received"),
                         Settled)
                    | Some reads =>
                        let (a, ex) := read_loop true "" init_lstate reads in
                        match ex with
                        | LoopReturned => ((a ++ [ReleaseLock])%list, Settled)
                        | LoopEnd st =>
                            ((a ++ [ClearTimeout;
                                    Call (if hasReceivedContent st then OnComplete
                                          else OnError "Connection closed without receiving response");
                                    ReleaseLock])%list, Settled)
                        | LoopThrow e => ((a ++ ReleaseLock :: catch_error e)%list, Settled)
                        | LoopHang => (a, Pending)
                        end
                    end
      end
  end.

(** The read loop fed with chunks only, stopping at a [return]:
    [None] after a [return], else the loop state and the buffer. *)
Fixpoint feed_chunks (buffer : string) (st : lstate) (cs : list string)
  : list action * option (lstate * string) :=
  match cs with
  | [] => ([], Some (st, buffer))
  | c :: cs' =>
      match feed_chunk buffer st c with
      | (a, Return, _) => (a, None)
      | (a, Continue st', buffer') =>
          let (a', o) := feed_chunks buffer' st' cs' in ((a ++ a')%list, o)
      end
  end.

End Decoder.

(** The callbacks of a trace, in order. *)
Fixpoint callbacks_of (acts : list action) : list callback :=
  match acts with
  | [] => []
  | Call c :: acts' => c :: callbacks_of acts'
  | _ :: acts' => callbacks_of acts'
  end.

Definition is_terminal (c : callback) : bool :=
  match c with OnComplete | OnError _ => true | _ => false end.

Definition count_terminal (acts : list action) : nat :=
  length (filter is_terminal (callbacks_of acts)).

Definition is_content (c : callback) : bool :=
  match c with OnContent _ => true | _ => false end.



Definition is_timer (x : action) : bool := match x with TimerFires => true | _ => false end.
Definition count_timer (acts : list action) : nat := length (filter is_timer acts).
Definition count_clear (acts : list action) : nat := length (filter is_clear acts).

(** No terminal callback and no abort. *)
Definition quiet (acts : list action) : Prop :=
  count_terminal acts = 0 /\ count_timer acts = 0.

Definition timeout_message : string := "Request timed out. Please try again.".

(** The timer aborts at most once, and when it does, nothing cleared it and
    no terminal callback ran before, and the only callback after it is the
    timeout error. *)
Definition timer_discipline (acts : list action) : Prop :=
  count_timer acts <= 1 /\
  (count_timer acts = 1 ->
   exists pre post, acts = (pre ++ TimerFires :: post)%list /\
     count_clear pre = 0 /\ count_terminal pre = 0 /\
     callbacks_of post = [OnError timeout_message]).

Definition timed (p : Z * string) : Z * read_result := (fst p, RChunk (snd p)).

Definition concat_chunks (cs : list string) : string := fold_right String.append "" cs.

Definition with_body (r : Response) (reads : list (Z * read_result)) : Response :=
  mkResponse (ok r) (status r) (statusText r) (error_json r) (Some reads).

(** What one line can do: go on quietly, keeping track of whether content
    was delivered, or return right after one terminal callback. *)
Definition line_post (st : lstate) (a : list action) (f : flow) : Prop :=
  match f with
  | Continue st' =>
      quiet a /\
      hasReceivedContent st' = hasReceivedContent st || existsb is_content (callbacks_of a)
  | Return => count_terminal a = 1 /\ count_timer a = 0
  end.

(** What a run of the read loop can do, started with the timer [armed] or
    not: the timer only fires if it was armed and nothing cleared it. *)
Definition loop_post (armed : bool) (st : lstate) (a : list action) (ex : loop_exit) : Prop :=
  match ex with
  | LoopReturned => count_terminal a = 1 /\ count_timer a = 0
  | LoopEnd st' =>
      quiet a /\
      hasReceivedContent st' = hasReceivedContent st || existsb is_content (callbacks_of a)
  | LoopThrow e =>
      quiet a \/
      (exists pre, a = (pre ++ [TimerFires])%list /\ quiet pre /\
                   armed = true /\ count_clear pre = 0 /\ e = abort_error)
  | LoopHang => quiet a
  end.

(* ------------------------------------------------------------------ *)
(** ** Transcript reconciler ([App.tsx]) *)

Inductive role : Type := User | Assistant | System.

Record SearchStep := mkStep { step_id : string; label : string; step_status : string }.

(** [Message] of [types.ts]; optional fields are [option]s. *)
Record Message := mkMessage {
  id : string;
  msg_role : role;
  content : string;
  reasoning : option string;
  timestamp : Z;
  sources : option (list Source);
  searchSteps : option (list SearchStep);
  isThinking : option bool
}.

(** The component state the streaming path reads and writes;
    [lastSend] is [lastSendRef.current]. *)
Record AppState := mkApp {
  messages : list Message;
  input : string;
  isLoading : bool;
  error : option string;
  lastSend : option (list Message * string)
}.

Definition set_messages (st : AppState) (ms : list Message) : AppState :=
  mkApp ms (input st) (isLoading st) (error st) (lastSend st).

(** [prev.map(m => m.id === botMsgId ? f(m) : m)] *)
Definition update_msg (botMsgId : string) (f : Message -> Message) (ms : list Message)
  : list Message :=
  map (fun m => if String.eqb (id m) botMsgId then f m else m) ms.

(** [{ ...m, content: m.content + chunk, isThinking: false }] *)
Definition append_content (chunk : json) (m : Message) : Message :=
  mkMessage (id m) (msg_role m) (content m ++ js_to_string chunk) (reasoning m)
            (timestamp m) (sources m) (searchSteps m) (Some false).

(** [{ ...m, reasoning: (m.reasoning || '') + chunk }] *)
Definition append_reasoning (chunk : json) (m : Message) : Message :=
  let r := match reasoning m with Some r => r | None => "" end in
  mkMessage (id m) (msg_role m) (content m) (Some (r ++ js_to_string chunk))
            (timestamp m) (sources m) (searchSteps m) (isThinking m).

Definition set_sources (srcs : list Source) (m : Message) : Message :=
  mkMessage (id m) (msg_role m) (content m) (reasoning m) (timestamp m) (Some srcs)
            (Some [mkStep "1" "Analyzing documents..." "completed"]) (isThinking m).

Definition settle (m : Message) : Message :=
  mkMessage (id m) (msg_role m) (content m) (reasoning m) (timestamp m) (sources m)
            (searchSteps m) (Some false).

(** [updateBotMessage(botMsgId, { content: `**Error:** ${errorMsg}`, isThinking: false })] *)
Definition set_error_content (errorMsg : string) (m : Message) : Message :=
  mkMessage (id m) (msg_role m) ("**Error:** " ++ errorMsg) (reasoning m) (timestamp m)
            (sources m) (searchSteps m) (Some false).

(** The callbacks passed by [handleSendMessage] for the message [botMsgId]. *)
Definition apply_callback (botMsgId : string) (st : AppState) (c : callback) : AppState :=
  match c with
  | OnContent chunk => set_messages st (update_msg botMsgId (append_content chunk) (messages st))
  | OnReasoning chunk => set_messages st (update_msg botMsgId (append_reasoning chunk) (messages st))
  | OnSources srcs => set_messages st (update_msg botMsgId (set_sources srcs) (messages st))
  | OnComplete =>
      mkApp (update_msg botMsgId settle (messages st)) (input st) false (error st) None
  | OnError message =>
      let errorMsg := if String.eqb message "" then "Unknown error occurred" else message in
      mkApp (update_msg botMsgId (set_error_content errorMsg) (messages st))
            (input st) false (Some errorMsg) (lastSend st)
  end.

Definition apply_callbacks (botMsgId : string) (st : AppState) (cs : list callback) : AppState :=
  fold_left (apply_callback botMsgId) cs st.

(** The synchronous part of [handleSendMessage] up to the call of
    [streamCompletionWithEvents], at time [now] ([Date.now()]); the history
    save in between touches none of these fields. *)
Definition handleSendMessage (now : Z) (st : AppState) : AppState :=
  let inp := trim (input st) in
  if String.eqb inp "" || isLoading st then st
  else
    let userMsg := mkMessage (string_of_Z now) User inp None now None None None in
    let botMsg := mkMessage (string_of_Z (now + 1)) Assistant "" (Some "") now None
                    (Some [mkStep "1" "Processing..." "in-progress"]) (Some true) in
    mkApp (messages st ++ [userMsg; botMsg]) "" true None (Some (messages st, inp)).

(** [handleRetry]; the send-button click it schedules is a later
    [handleSendMessage]. *)
Definition handleRetry (st : AppState) : AppState :=
  match lastSend st with
  | Some (ms, inp) => mkApp ms inp (isLoading st) None (lastSend st)
  | None => st
  end.

(** The text the deltas of a callback sequence append, in arrival order. *)
Fixpoint content_text (cs : list callback) : string :=
  match cs with
  | [] => ""
  | OnContent v :: cs' => js_to_string v ++ content_text cs'
  | _ :: cs' => content_text cs'
  end.

Fixpoint reasoning_text (cs : list callback) : string :=
  match cs with
  | [] => ""
  | OnReasoning v :: cs' => js_to_string v ++ reasoning_text cs'
  | _ :: cs' => reasoning_text cs'
  end.

Definition is_error (c : callback) : bool := match c with OnError _ => true | _ => false end.
Definition is_complete (c : callback) : bool := match c with OnComplete => true | _ => false end.

(** A whole send: [handleSendMessage], then the callbacks the session makes. *)
Definition send_and_stream (parse : string -> option json) (now : Z) (st : AppState)
    (fetched : option (Z * fetch_result)) : AppState :=
  let st1 := handleSendMessage now st in
  if String.eqb (trim (input st)) "" || isLoading st then st1
  else apply_callbacks (string_of_Z (now + 1)) st1
         (callbacks_of (fst (streamCompletionWithEvents parse fetched))).


(** The effect of one callback on the message [botMsgId] names
    ([updateBotMessage] and the [prev.map] of the delta callbacks). *)
Definition bot_update (c : callback) (m : Message) : Message :=
  match c with
  | OnContent chunk => append_content chunk m
  | OnReasoning chunk => append_reasoning chunk m
  | OnSources srcs => set_sources srcs m
  | OnComplete => settle m
  | OnError message =>
      set_error_content (if String.eqb message "" then "Unknown error occurred" else message) m
  end.

(** The bot message after the updates of a callback sequence, in order. *)
Definition bot_updates (cs : list callback) (m : Message) : Message :=
  fold_left (fun m c => bot_update c m) cs m.

Definition is_sources (c : callback) : bool :=
  match c with OnSources _ => true | _ => false end.

(** Every code unit of [s] is white space for [trim]. *)
Fixpoint all_ws (s : string) : bool :=
  match s with
  | EmptyString => true
  | String c s' => is_ws c && all_ws s'
  end.

Definition is_release (x : action) : bool := match x with ReleaseLock => true | _ => false end.
Definition count_release (acts : list action) : nat := length (filter is_release acts).

(* ------------------------------------------------------------------ *)
(** ** What a message shows ([components/ThinkingIndicator.tsx],
       [components/MessageBubble.tsx]) *)

(** [steps.find(s => s.status === 'in-progress') || steps[steps.length - 1]] *)
Definition activeStep (steps : list SearchStep) : option SearchStep :=
  match find (fun s => String.eqb (step_status s) "in-progress") steps with
  | Some s => Some s
  | None => last (map Some steps) None
  end.

(** [activeStep?.label || 'Working...'] *)
Definition indicator_label (steps : list SearchStep) : string :=
  match activeStep steps with
  | Some s => if String.eqb (label s) "" then "Working..." else label s
  | None => "Working..."
  end.

(** [{msg.searchSteps && msg.isThinking && <ThinkingIndicator steps={msg.searchSteps} />}]
    in [App]: the label shown, if the indicator is rendered. *)
Definition thinking_indicator (m : Message) : option string :=
  match searchSteps m, isThinking m with
  | Some steps, Some true => Some (indicator_label steps)
  | _, _ => None
  end.

(** [{message.reasoning && <ReasoningBlock reasoning={message.reasoning} />}] *)
Definition reasoning_block_shown (m : Message) : bool :=
  match reasoning m with Some r => negb (String.eqb r "") | None => false end.

(** The bouncing dots of a bubble that is not the user's:
    [message.content === '' && !message.reasoning]. *)
Definition waiting_dots (m : Message) : bool :=
  match msg_role m with
  | User => false
  | _ => String.eqb (content m) "" && negb (reasoning_block_shown m)
  end.

(* ------------------------------------------------------------------ *)
(** ** HTTP client ([api/client.ts]) and chat sessions ([api/chatApi.ts]) *)



(** What a request rejects with: an [ApiError] (its message and status),
    or any other thrown value. *)
Inductive api_exn : Type :=
| ApiError (message : string) (status : Z)
| OtherError (e : exn).

(** How the promise of a request settles; [Resolved None] is [undefined]. *)
Inductive api_outcome : Type :=
| Resolved (v : option json)
| Rejected (e : api_exn)
| Stuck.





(** [loadChat]: a rejected [get] is caught and gives [null]. *)
Definition loadChat (get_res : api_outcome) : api_outcome :=
  match get_res with
  | Rejected _ => Resolved (Some JNull)
  | r => r
  end.

(* ------------------------------------------------------------------ *)
(** ** Chat management in [App.tsx] *)

(** The rest of the component state these handlers read and write. *)
Record Chat := mkChat {
  app : AppState;
  sessionId : string;
  isSidebarOpen : bool;
  deleteConfirmId : option string;
  hasSavedCurrentChat : bool
}.

Definition with_app (c : Chat) (a : AppState) : Chat :=
  mkChat a (sessionId c) (isSidebarOpen c) (deleteConfirmId c) (hasSavedCurrentChat c).

Definition set_error (st : AppState) (e : option string) : AppState :=
  mkApp (messages st) (input st) (isLoading st) e (lastSend st).

Definition set_loading (st : AppState) (b : bool) : AppState :=
  mkApp (messages st) (input st) b (error st) (lastSend st).

(** [resetUIState] at time [now] ([Date.now()]); it sets neither
    [isLoading] nor [lastSendRef]. *)
Definition resetUIState (now : Z) (c : Chat) : Chat :=
  mkChat (mkApp [] "" (isLoading (app c)) None (lastSend (app c))) (string_of_Z now) false None false.

(** Requests the handlers make, in order. *)
Inductive request_made : Type :=
| ReqSave (sid : string) (ms : list Message)
| ReqHistory
| ReqLoad (chatId : string)
| ReqDelete (chatId : string).

(** [if (messages.length >= 2 && hasSavedCurrentChat) { try { await
    saveChat(sessionId, messages); await refreshHistory(); } catch ... }],
    given how [saveChat] settles and how the [getChatHistory] request of
    [refreshHistory] settles ([refreshHistory] catches its rejection and
    otherwise only refreshes the history list): the requests made, and
    whether the handler goes on. *)
Definition save_current (save_res hist_res : api_outcome) (c : Chat)
  : list request_made * bool :=
  if (2 <=? length (messages (app c)))%nat && hasSavedCurrentChat c then
    match save_res with
    | Resolved _ =>
        ([ReqSave (sessionId c) (messages (app c)); ReqHistory],
         match hist_res with Stuck => false | _ => true end)
    | Rejected _ => ([ReqSave (sessionId c) (messages (app c))], true)
    | Stuck => ([ReqSave (sessionId c) (messages (app c))], false)
    end
  else ([], true).

(** [handleNewChat] at time [now]. *)
Definition handleNewChat (now : Z) (save_res hist_res : api_outcome) (c : Chat)
  : Chat * list request_made :=
  let (reqs, go) := save_current save_res hist_res c in
  (if go then resetUIState now c else c, reqs).

(** [confirmDelete] of [chatId] at time [now], given how [deleteChat] settles. *)
Definition confirmDelete (now : Z) (chatId : string) (del_res : api_outcome) (c : Chat)
  : Chat * list request_made :=
  match del_res with
  | Stuck => (c, [ReqDelete chatId])
  | Rejected _ => (with_app c (set_error (app c) (Some "Failed to delete chat.")), [ReqDelete chatId])
  | Resolved _ =>
      ((if String.eqb chatId (sessionId c) then resetUIState now c
        else mkChat (app c) (sessionId c) (isSidebarOpen c) None (hasSavedCurrentChat c)),
       [ReqDelete chatId; ReqHistory])
  end.

Section LoadChat.

(** [data.messages] of a loaded chat. *)
Variable messages_of : json -> list Message.

(** The [finally] block: [setIsLoading(false); setIsSidebarOpen(false)]. *)
Definition load_finish (c : Chat) : Chat :=
  mkChat (set_loading (app c) false) (sessionId c) false (deleteConfirmId c) (hasSavedCurrentChat c).

(** [handleLoadChat(chatId)], given how [saveChat], the history request
    of [refreshHistory] and the [get] of [loadChat] settle. *)
Definition handleLoadChat (chatId : string) (save_res hist_res get_res : api_outcome) (c : Chat)
  : Chat * list request_made :=
  if isLoading (app c) then (c, [])
  else
    let c1 := mkChat (set_error (app c) None) (sessionId c) (isSidebarOpen c) None
                     (hasSavedCurrentChat c) in
    let (reqs, go) := save_current save_res hist_res c1 in
    if negb go then (c1, reqs)
    else
      let reqs' := (reqs ++ [ReqLoad chatId])%list in
      let c2 := with_app c1 (set_loading (app c1) true) in
      match loadChat get_res with
      | Stuck => (c2, reqs')
      | Rejected _ =>
          (load_finish (with_app c2 (set_error (app c2) (Some "Failed to load chat. Please try again."))),
           reqs')
      | Resolved (Some d) =>
          if truthy (Some d)
          then (load_finish (mkChat (set_messages (app c2) (messages_of d)) chatId
                                    (isSidebarOpen c2) (deleteConfirmId c2) true), reqs')
          else (load_finish c2, reqs')
      | Resolved None => (load_finish c2, reqs')
      end.

End LoadChat.

(* ------------------------------------------------------------------ *)
(** ** The history sidebar ([groupedHistory] in [App.tsx]) *)

Record ChatSession := mkSession {
  cs_id : string;
  title : string;
  updatedAt : Z;
  preview : string
}.

Section History.

(** [new Date(ms).toDateString()] in the local time zone. *)
Variable toDateString : Z -> string.

(** [today] and [yesterday] after [yesterday.setDate(yesterday.getDate() - 1)],
    as milliseconds; the reducer reads the clock for each chat, which is
    taken here as one reading for the whole history. *)
Variables today_ms yesterday_ms : Z.

Definition history_key (chat : ChatSession) : string :=
  let d := toDateString (updatedAt chat) in
  if String.eqb d (toDateString today_ms) then "Today"
  else if String.eqb d (toDateString yesterday_ms) then "Yesterday"
  else "Previous 30 Days".

End History.

(** [if (!groups[key]) groups[key] = []; groups[key].push(chat);] on the
    groups object, as an association list in key-creation order. *)
Fixpoint push_group (k : string) (chat : ChatSession) (g : list (string * list ChatSession))
  : list (string * list ChatSession) :=
  match g with
  | [] => [(k, [chat])]
  | (k', l) :: g' =>
      if String.eqb k k' then (k', (l ++ [chat])%list) :: g' else (k', l) :: push_group k chat g'
  end.

(** [chatHistory.reduce(...)], grouping by [key]. *)
Definition group_history (key : ChatSession -> string) (h : list ChatSession)
  : list (string * list ChatSession) :=
  fold_left (fun g chat => push_group (key chat) chat g) h [].

(** [groups[k]] *)
Fixpoint group_lookup (k : string) (g : list (string * list ChatSession))
  : option (list ChatSession) :=
  match g with
  | [] => None
  | (k', l) :: g' => if String.eqb k k' then Some l else group_lookup k g'
  end.

Definition historyOrder : list string := ["Today"; "Yesterday"; "Previous 30 Days"].

(** The chats the sidebar lists, in order: [historyOrder.map(group =>
    groupedHistory[group] && groupedHistory[group].length > 0 && ...)]. *)
Definition sidebar_chats (g : list (string * list ChatSession)) : list ChatSession :=
  flat_map (fun k => match group_lookup k g with
                     | Some l => if (0 <? length l)%nat then l else []
                     | None => []
                     end) historyOrder.


(* ------------------------------------------------------------------ *)
(** ** A concrete [JSON.parse] on the payloads used by the examples *)

Definition dq : string := String "034"%char EmptyString.
Definition LF : string := String nl EmptyString.
Definition CR : string := String "013"%char EmptyString.

Definition text_payload (t : string) : string :=
  "{" ++ dq ++ "text" ++ dq ++ ":" ++ dq ++ t ++ dq ++ "}".

Definition message_payload (t : string) : string :=
  "{" ++ dq ++ "message" ++ dq ++ ":" ++ dq ++ t ++ dq ++ "}".

(** An array of one source object and one number. *)
Definition sources_payload : string :=
  "[{" ++ dq ++ "id" ++ dq ++ ":" ++ dq ++ "d1" ++ dq ++ "},7]".

(** Agrees with [JSON.parse] on the listed texts and rejects every other. *)
Definition sample_table : list (string * json) :=
  [("{}", JObj []);
   ("null", JNull);
   (text_payload "Hi", JObj [("text", JStr "Hi")]);
   (text_payload "A", JObj [("text", JStr "A")]);
   (text_payload "B", JObj [("text", JStr "B")]);
   (text_payload "", JObj [("text", JStr "")]);
   (message_payload "rate limited", JObj [("message", JStr "rate limited")]);
   (sources_payload, JArr [JObj [("id", JStr "d1")]; JNum 7]);
   ("[null]", JArr [JNull])].

Fixpoint table_lookup (s : string) (t : list (string * json)) : option json :=
  match t with
  | [] => None
  | (k, v) :: t' => if String.eqb s k then Some v else table_lookup s t'
  end.

Definition sample_parse (s : string) : option json := table_lookup s sample_table.

(** Lines, each followed by its terminator. *)
Definition lines_text (ls : list string) : string :=
  fold_right (fun l acc => l ++ LF ++ acc) "" ls.

(** The first scenario of the spec: one [content] frame then [done]. *)
Definition scenario_hi : string :=
  lines_text ["event: content"; "data: " ++ text_payload "Hi"; "";
              "event: done"; "data: {}"; ""].

Definition ok_response (reads : list (Z * read_result)) : Response :=
  mkResponse true 200 "OK" EBInvalid (Some reads).

(** A three-chunk split of [scenario_hi], cutting lines mid-way. *)
Definition split_hi : list (Z * string) :=
  [(10%Z, substring 0 17 scenario_hi); (11%Z, substring 17 40 scenario_hi);
   (12%Z, substring 57 100 scenario_hi)].

Definition app_hello : AppState := mkApp [] "hello" false None None.

Example scenario_hi_trace :
  streamCompletionWithEvents sample_parse
    (Some (5%Z, FResp (ok_response [(10%Z, RChunk scenario_hi); (20%Z, REnd)])))
  = ([Call (OnContent (JStr "Hi")); ClearTimeout; Call OnComplete; ReleaseLock], Settled).
Proof. vm_compute. reflexivity. Qed.

Example scenario_error_trace :
  streamCompletionWithEvents sample_parse
    (Some (5%Z, FResp (ok_response
       [(10%Z, RChunk (lines_text ["event: error"; "data: " ++ message_payload "rate limited"; ""]));
        (20%Z, REnd)])))
  = ([ClearTimeout; Call (OnError "rate limited"); ReleaseLock], Settled).
Proof. vm_compute. reflexivity. Qed.

Example scenario_midline_trace :
  streamCompletionWithEvents sample_parse
    (Some (5%Z, FResp (ok_response
       [(10%Z, RChunk ("event: content" ++ LF ++ "data: {" ++ dq ++ "te")); (20%Z, REnd)])))
  = ([ClearTimeout; Call (OnError "Connection closed without receiving response"); ReleaseLock],
     Settled).
Proof. vm_compute. reflexivity. Qed.

(* ------------------------------------------------------------------ *)
(** ** Line splitting across chunks *)

Lemma str_app_assoc (a b c : string) : (a ++ b) ++ c = a ++ (b ++ c).
Proof. induction a as [|x a IH]; simpl; congruence. Qed.

Lemma str_app_nil_r (a : string) : a ++ "" = a.
Proof. induction a as [|x a IH]; simpl; congruence. Qed.

Lemma split_nl_nonempty (s : string) : split_nl s <> [].
Proof.
  destruct s as [|c s]; simpl; [discriminate|].
  destruct (Ascii.eqb c nl); [discriminate|].
  destruct (split_nl s); discriminate.
Qed.

Lemma last_app_nonempty {A} (l l' : list A) (d : A) :
  l' <> [] -> last (l ++ l')%list d = last l' d.
Proof.
  intros H. induction l as [|x l IH]; simpl; [reflexivity|].
  rewrite IH. destruct (l ++ l')%list eqn:E; [|reflexivity].
  apply app_eq_nil in E. tauto.
Qed.

(** Splitting a concatenation: the complete lines of the first part, then
    the split of its unterminated tail followed by the second part. *)
Lemma split_nl_app (x y : string) :
  split_nl (x ++ y) =
  (removelast (split_nl x) ++ split_nl (last (split_nl x) "" ++ y))%list.
Proof.
  induction x as [|c x IH]; [reflexivity|].
  simpl. pose proof (split_nl_nonempty x) as Hne.
  destruct (Ascii.eqb c nl) eqn:Ec.
  - rewrite IH. destruct (split_nl x) as [|a l]; [congruence|].
    reflexivity.
  - rewrite IH. destruct (split_nl x) as [|a [|b l]]; [congruence| |].
    + simpl. rewrite Ec. reflexivity.
    + reflexivity.
Qed.

Lemma split_nl_segments (s : string) :
  Forall (fun x => split_nl x = [x]) (split_nl s).
Proof.
  induction s as [|c s IH]; simpl.
  - repeat constructor.
  - destruct (Ascii.eqb c nl) eqn:Ec.
    + constructor; [reflexivity|exact IH].
    + destruct (split_nl s) as [|x xs] eqn:E.
      * repeat constructor. simpl. rewrite Ec. reflexivity.
      * inversion IH as [|? ? Hx Hxs]; subst. constructor; [|exact Hxs].
        simpl. rewrite Ec, Hx. reflexivity.
Qed.

(** The tail kept in the buffer holds no line terminator. *)
Lemma split_nl_last (s : string) :
  split_nl (last (split_nl s) "") = [last (split_nl s) ""].
Proof.
  pose proof (split_nl_segments s) as H.
  pose proof (split_nl_nonempty s) as Hne.
  rewrite Forall_forall in H. apply H.
  destruct (split_nl s) as [|x l] eqn:E; [congruence|].
  clear. revert x. induction l as [|y l IH]; intros x; simpl; [now left|].
  right. apply IH.
Qed.

Ltac pl_split := repeat match goal with
  | |- context [let (_, _) := ?e in _] => destruct e eqn:?
  | |- context [match ?e with Continue _ => _ | Return => _ end] => destruct e eqn:?
  end.

Section DecoderLemmas.

Variable JSON_parse : string -> option json.

Lemma process_lines_app (st : lstate) (l1 l2 : list string) :
  process_lines JSON_parse st (l1 ++ l2) =
  let (a, f) := process_lines JSON_parse st l1 in
  match f with
  | Continue st' => let (a', f') := process_lines JSON_parse st' l2 in ((a ++ a')%list, f')
  | Return => (a, Return)
  end.
Proof.
  revert st. induction l1 as [|l l1 IH]; intros st; simpl.
  - destruct (process_lines JSON_parse st l2); reflexivity.
  - destruct (process_line JSON_parse st l) as [a f].
    destruct f as [st'|]; [|reflexivity].
    rewrite IH. destruct (process_lines JSON_parse st' l1) as [a1 f1].
    destruct f1 as [st''|]; [|reflexivity].
    destruct (process_lines JSON_parse st'' l2) as [a2 f2].
    rewrite app_assoc. reflexivity.
Qed.

(** Feeding chunks one at a time processes exactly the complete lines of
    their concatenation; the buffer keeps its unterminated tail. *)
Lemma feed_chunks_concat (buffer : string) (st : lstate) (cs : list string) :
  split_nl buffer = [buffer] ->
  feed_chunks JSON_parse buffer st cs =
  let lines := split_nl (buffer ++ concat_chunks cs) in
  match process_lines JSON_parse st (removelast lines) with
  | (a, Continue st') => (a, Some (st', last lines ""))
  | (a, Return) => (a, None)
  end.
Proof.
  revert buffer st. induction cs as [|c cs IH]; intros buffer st Hb; simpl.
  - rewrite str_app_nil_r, Hb. reflexivity.
  - unfold feed_chunk. cbv zeta.
    rewrite <- str_app_assoc, (split_nl_app (buffer ++ c) (concat_chunks cs)).
    rewrite removelast_app by apply split_nl_nonempty.
    rewrite last_app_nonempty by apply split_nl_nonempty.
    rewrite process_lines_app.
    destruct (process_lines JSON_parse st (removelast (split_nl (buffer ++ c)))) as [a f].
    destruct f as [st'|]; [|reflexivity].
    rewrite IH by apply split_nl_last. cbv zeta.
    destruct (process_lines JSON_parse st'
               (removelast (split_nl (last (split_nl (buffer ++ c)) "" ++ concat_chunks cs))))
      as [a' f'].
    destruct f'; reflexivity.
Qed.

(** Reads that deliver chunks before the deadline run the chunk loop; the
    timer stays armed after them unless one of their lines cleared it. *)
Lemma read_loop_chunks (armed : bool) (buffer : string) (st : lstate) (rs : list (Z * string))
    (rest : list (Z * read_result)) :
  Forall (fun p => (fst p < REQUEST_TIMEOUT_MS)%Z) rs ->
  read_loop JSON_parse armed buffer st (map timed rs ++ rest) =
  match feed_chunks JSON_parse buffer st (map snd rs) with
  | (a, None) => (a, LoopReturned)
  | (a, Some (st', b)) =>
      let (a', ex) := read_loop JSON_parse (armed && negb (existsb is_clear a)) b st' rest in
      ((a ++ a')%list, ex)
  end.
Proof.
  revert armed buffer st. induction rs as [|[t c] rs IH]; intros armed buffer st Ht; simpl.
  - rewrite andb_true_r. destruct (read_loop JSON_parse armed buffer st rest); reflexivity.
  - inversion Ht as [|? ? Ht0 Hrs]; subst; simpl in Ht0.
    replace (Z.leb REQUEST_TIMEOUT_MS t) with false by (symmetry; apply Z.leb_gt; exact Ht0).
    rewrite andb_false_r.
    destruct (feed_chunk JSON_parse buffer st c) as [[a f] b].
    destruct f as [st'|]; [|reflexivity].
    rewrite (IH _ b st' Hrs).
    destruct (feed_chunks JSON_parse b st' (map snd rs)) as [a' [[st'' b']|]].
    + rewrite existsb_app, negb_orb, andb_assoc.
      destruct (read_loop JSON_parse _ b' st'' rest). rewrite app_assoc. reflexivity.
    + reflexivity.
Qed.

End DecoderLemmas.

Lemma callbacks_of_app (a b : list action) :
  callbacks_of (a ++ b) = (callbacks_of a ++ callbacks_of b)%list.
Proof. induction a as [|[] a IH]; simpl; rewrite ?IH; reflexivity. Qed.

Lemma count_terminal_app (a b : list action) :
  count_terminal (a ++ b) = count_terminal a + count_terminal b.
Proof. unfold count_terminal. rewrite callbacks_of_app, filter_app, length_app. reflexivity. Qed.

Lemma count_timer_app (a b : list action) :
  count_timer (a ++ b) = count_timer a + count_timer b.
Proof. unfold count_timer. rewrite filter_app, length_app. reflexivity. Qed.

Lemma count_clear_app (a b : list action) :
  count_clear (a ++ b) = count_clear a + count_clear b.
Proof. unfold count_clear. rewrite filter_app, length_app. reflexivity. Qed.

Lemma existsb_app_cb (a b : list callback) (f : callback -> bool) :
  existsb f (a ++ b) = existsb f a || existsb f b.
Proof. apply existsb_app. Qed.

Lemma quiet_app (a b : list action) : quiet a -> quiet b -> quiet (a ++ b).
Proof.
  unfold quiet. rewrite count_terminal_app, count_timer_app. lia.
Qed.

Lemma existsb_is_clear_false (a : list action) :
  existsb is_clear a = false -> count_clear a = 0.
Proof.
  unfold count_clear. induction a as [|x a IH]; simpl; [reflexivity|].
  destruct x; simpl; auto; discriminate.
Qed.

Lemma count_clear_existsb (a : list action) :
  count_clear a = 0 -> existsb is_clear a = false.
Proof.
  unfold count_clear. induction a as [|x a IH]; simpl; [reflexivity|].
  destruct x; simpl; auto; discriminate.
Qed.

Lemma quiet_nil : quiet [].
Proof. repeat split. Qed.

Ltac destruct_in H :=
  repeat match type of H with
         | context [match ?e with _ => _ end] => destruct e eqn:?
         end.

Ltac count_simpl :=
  cbn [fst snd] in *;
  repeat rewrite ?count_terminal_app, ?count_timer_app, ?count_clear_app;
  unfold count_terminal, count_timer, count_clear in *; simpl in *;
  rewrite ?callbacks_of_app, ?filter_app, ?length_app in *; simpl in *.

Section LineInvariants.

Variable JSON_parse : string -> option json.

Lemma process_line_post (st : lstate) (l : string) (a : list action) (f : flow) :
  process_line JSON_parse st l = (a, f) -> line_post st a f.
Proof.
  unfold process_line, dispatch, skip. intros H. destruct_in H;
  injection H as <- <-; unfold line_post, quiet; simpl;
  rewrite ?orb_false_r, ?orb_true_r; repeat split; auto.
Qed.

Lemma process_lines_post (st : lstate) (ls : list string) (a : list action) (f : flow) :
  process_lines JSON_parse st ls = (a, f) -> line_post st a f.
Proof.
  revert st a f. induction ls as [|l ls IH]; intros st a f H; simpl in H.
  - injection H as <- <-. unfold line_post. split; [apply quiet_nil|].
    simpl. rewrite orb_false_r. reflexivity.
  - destruct (process_line JSON_parse st l) as [a1 f1] eqn:H1.
    apply process_line_post in H1.
    destruct f1 as [st1|].
    + destruct (process_lines JSON_parse st1 ls) as [a2 f2] eqn:H2.
      apply IH in H2. injection H as <- <-.
      destruct H1 as [Hq1 Hc1]. destruct f2 as [st2|]; simpl in *.
      * destruct H2 as [Hq2 Hc2]. split; [apply quiet_app; assumption|].
        rewrite Hc2, Hc1, callbacks_of_app, existsb_app, orb_assoc. reflexivity.
      * destruct Hq1 as (Ht1 & Hm1). destruct H2 as [Ht2 Hm2].
        rewrite count_terminal_app, count_timer_app. lia.
    + injection H as <- <-. exact H1.
Qed.

Lemma read_loop_post (armed : bool) (buffer : string) (st : lstate)
    (reads : list (Z * read_result)) (a : list action) (ex : loop_exit) :
  read_loop JSON_parse armed buffer st reads = (a, ex) -> loop_post armed st a ex.
Proof.
  revert armed buffer st a ex. induction reads as [|[t r] reads IH];
    intros armed buffer st a ex H; simpl in H.
  - destruct armed; injection H as <- <-.
    + right. exists []. repeat split.
    + apply quiet_nil.
  - destruct (armed && Z.leb REQUEST_TIMEOUT_MS t) eqn:Ha.
    { injection H as <- <-. right. exists []. apply andb_true_iff in Ha.
      split; [reflexivity|]. split; [apply quiet_nil|].
      split; [apply Ha|]. split; reflexivity. }
    destruct r as [c| |e].
    + unfold feed_chunk in H.
      destruct (process_lines JSON_parse st (removelast (split_nl (buffer ++ c))))
        as [a1 f1] eqn:H1.
      apply process_lines_post in H1.
      destruct f1 as [st1|].
      * destruct (read_loop JSON_parse (armed && negb (existsb is_clear a1))
                    (last (split_nl (buffer ++ c)) "") st1 reads)
          as [a2 ex2] eqn:H2.
        apply IH in H2. injection H as <- <-.
        destruct H1 as [Hq1 Hc1]. destruct ex2 as [|st2|e|]; simpl in *.
        -- destruct Hq1 as (Ht1 & Hm1). destruct H2 as [Ht2 Hm2].
           rewrite count_terminal_app, count_timer_app. lia.
        -- destruct H2 as [Hq2 Hc2]. split; [apply quiet_app; assumption|].
           rewrite Hc2, Hc1, callbacks_of_app, existsb_app, orb_assoc. reflexivity.
        -- destruct H2 as [Hq2|(pre & -> & Hq2 & Harm & Hcl & ->)].
           ++ left. apply quiet_app; assumption.
           ++ apply andb_true_iff in Harm as [-> Hn]. apply negb_true_iff in Hn.
              right. exists (a1 ++ pre)%list. rewrite app_assoc.
              split; [reflexivity|]. split; [apply quiet_app; assumption|].
              split; [reflexivity|]. split; [|reflexivity].
              rewrite count_clear_app, (existsb_is_clear_false a1 Hn), Hcl. reflexivity.
        -- apply quiet_app; assumption.
      * injection H as <- <-. exact H1.
    + injection H as <- <-. split; [apply quiet_nil|]. simpl. rewrite orb_false_r. reflexivity.
    + injection H as <- <-. left. apply quiet_nil.
Qed.

(** Every session that settles makes exactly one terminal callback; one
    that does not settle made none; the timer obeys [timer_discipline]. *)
Lemma session_post (fetched : option (Z * fetch_result)) :
  let (acts, e) := streamCompletionWithEvents JSON_parse fetched in
  count_terminal acts = match e with Settled => 1 | Pending => 0 end /\
  timer_discipline acts.
Proof.
  assert (Habort : timer_discipline (TimerFires :: catch_error abort_error)).
  { split; [count_simpl; lia|]. intros _. exists [], (catch_error abort_error).
    repeat split. }
  assert (Hnotimer : forall acts, count_timer acts = 0 -> timer_discipline acts).
  { intros acts H. split; [lia|]. intros H'. lia. }
  unfold streamCompletionWithEvents.
  destruct fetched as [[t fr]|]; [|split; [reflexivity|exact Habort]].
  destruct (Z.leb REQUEST_TIMEOUT_MS t); [split; [reflexivity|exact Habort]|].
  destruct fr as [r|e].
  2: { split; [reflexivity|apply Hnotimer; reflexivity]. }
  destruct (negb (ok r)).
  { destruct (http_error_message r); (split; [reflexivity|apply Hnotimer; reflexivity]). }
  destruct (body r) as [reads|]; [|split; [reflexivity|apply Hnotimer; reflexivity]].
  destruct (read_loop JSON_parse true "" init_lstate reads) as [a ex] eqn:H.
  apply read_loop_post in H.
  destruct ex as [|st|e|]; simpl in H.
  - destruct H as [Ht Hm]. split; [count_simpl; lia|]. apply Hnotimer. count_simpl. lia.
  - destruct H as [(Ht & Hm) _]. split; [count_simpl; rewrite Ht;
      destruct (hasReceivedContent st); reflexivity|].
    apply Hnotimer. count_simpl. lia.
  - destruct H as [(Ht & Hm)|(pre & -> & (Ht & Hm) & _ & Hc & ->)].
    + split; [count_simpl; lia|]. apply Hnotimer. count_simpl. lia.
    + split; [count_simpl; lia|]. split; [count_simpl; lia|]. intros _.
      exists pre, (ReleaseLock :: catch_error abort_error).
      rewrite <- app_assoc. repeat split; assumption.
  - destruct H as [Ht Hm]. split; [exact Ht|]. apply Hnotimer. exact Hm.
Qed.

Lemma feed_chunks_post (cs : list string) (a : list action)
    (o : option (lstate * string)) :
  feed_chunks JSON_parse "" init_lstate cs = (a, o) ->
  match o with
  | Some (st, _) => quiet a /\ hasReceivedContent st = existsb is_content (callbacks_of a)
  | None => count_terminal a = 1 /\ count_timer a = 0
  end.
Proof.
  rewrite feed_chunks_concat by reflexivity. cbv zeta.
  destruct (process_lines JSON_parse init_lstate (removelast (split_nl ("" ++ concat_chunks cs))))
    as [a0 f] eqn:H.
  apply process_lines_post in H.
  destruct f as [st|]; intros E; injection E as <- <-; exact H.
Qed.

End LineInvariants.

(* ------------------------------------------------------------------ *)
(** ** Frame decoder and session controller *)

(** C4: for every stream, cutting its text into chunks at arbitrary points
    (chunks received before the timeout) gives the same effects, callbacks
    and payloads included, and the same outcome: only the concatenation of
    the chunks matters. [rest] is whatever the stream delivers afterwards. *)
Theorem chunk_boundary_independence (JSON_parse : string -> option json)
    (tf : Z) (r : Response) (rs1 rs2 : list (Z * string)) (rest : list (Z * read_result)) :
  Forall (fun p => (fst p < REQUEST_TIMEOUT_MS)%Z) rs1 ->
  Forall (fun p => (fst p < REQUEST_TIMEOUT_MS)%Z) rs2 ->
  concat_chunks (map snd rs1) = concat_chunks (map snd rs2) ->
  streamCompletionWithEvents JSON_parse (Some (tf, FResp (with_body r (map timed rs1 ++ rest)))) =
  streamCompletionWithEvents JSON_parse (Some (tf, FResp (with_body r (map timed rs2 ++ rest)))).
Proof.
  intros H1 H2 Hc. unfold streamCompletionWithEvents, with_body. cbn [ok body].
  rewrite !read_loop_chunks by assumption.
  rewrite !feed_chunks_concat by reflexivity.
  rewrite Hc. reflexivity.
Qed.

Lemma chunk_boundary_independence_witness :
  streamCompletionWithEvents sample_parse
    (Some (5%Z, FResp (with_body (ok_response []) (map timed [(10%Z, scenario_hi)] ++ [(20%Z, REnd)]))))
  = streamCompletionWithEvents sample_parse
    (Some (5%Z, FResp (with_body (ok_response []) (map timed split_hi ++ [(20%Z, REnd)])))).
Proof.
  apply chunk_boundary_independence.
  - repeat constructor.
  - repeat constructor.
  - vm_compute. reflexivity.
Defined.

Lemma leb_timeout_false (t : Z) : (t < REQUEST_TIMEOUT_MS)%Z -> Z.leb REQUEST_TIMEOUT_MS t = false.
Proof. intros H. apply Z.leb_gt. exact H. Qed.

Lemma leb_timeout_true (t : Z) : (REQUEST_TIMEOUT_MS <= t)%Z -> Z.leb REQUEST_TIMEOUT_MS t = true.
Proof. intros H. apply Z.leb_le. exact H. Qed.

(** C2: when the stream ends (before the timeout) and its chunks decoded no
    [done] or [error] frame (no terminal callback among the decoded ones),
    the session resolves through [onComplete] if [onContent] fired at least
    once, and through [onError] with the "closed without receiving
    response" error if it never fired. *)
Theorem silent_close_resolves_by_content (JSON_parse : string -> option json)
    (tf te : Z) (r : Response) (rs : list (Z * string)) :
  (tf < REQUEST_TIMEOUT_MS)%Z ->
  ok r = true ->
  Forall (fun p => (fst p < REQUEST_TIMEOUT_MS)%Z) rs ->
  (te < REQUEST_TIMEOUT_MS)%Z ->
  count_terminal (fst (feed_chunks JSON_parse "" init_lstate (map snd rs))) = 0 ->
  let a := fst (feed_chunks JSON_parse "" init_lstate (map snd rs)) in
  streamCompletionWithEvents JSON_parse
    (Some (tf, FResp (with_body r (map timed rs ++ [(te, REnd)])))) =
  ((a ++ [ClearTimeout;
          Call (if existsb is_content (callbacks_of a) then OnComplete
                else OnError "Connection closed without receiving response");
          ReleaseLock])%list, Settled).
Proof.
  intros Htf Hok Hrs Hte Hq a. subst a.
  unfold streamCompletionWithEvents, with_body. cbn [ok body].
  rewrite (leb_timeout_false tf Htf), Hok. cbn [negb].
  rewrite read_loop_chunks by exact Hrs.
  destruct (feed_chunks JSON_parse "" init_lstate (map snd rs)) as [a o] eqn:Hf.
  apply feed_chunks_post in Hf. cbn [fst] in *.
  destruct o as [[st b]|].
  - destruct Hf as [_ Hc]. cbn [read_loop]. rewrite (leb_timeout_false te Hte), andb_false_r.
    cbn. rewrite app_nil_r, Hc. reflexivity.
  - destruct Hf as [Ht _]. congruence.
Qed.

Lemma silent_close_resolves_by_content_witness :
  streamCompletionWithEvents sample_parse
    (Some (5%Z, FResp (with_body (ok_response [])
       (map timed [(10%Z, lines_text ["event: content"; "data: " ++ text_payload "A"])]
        ++ [(20%Z, REnd)]))))
  = ([Call (OnContent (JStr "A")); ClearTimeout; Call OnComplete; ReleaseLock], Settled).
Proof.
  rewrite (silent_close_resolves_by_content sample_parse 5 20 (ok_response []));
    [| reflexivity | reflexivity | repeat constructor | reflexivity | vm_compute; reflexivity].
  vm_compute. reflexivity.
Defined.

(** C3 (defect): a failed response whose body never finishes: the
    timeout was cleared before [await response.json()], so neither
    [onComplete] nor [onError] is ever invoked. *)
Theorem stalled_error_body_never_resolves (JSON_parse : string -> option json) :
  streamCompletionWithEvents JSON_parse
    (Some (5%Z, FResp (mkResponse false 500 "Internal Server Error" EBStalled None)))
  = ([ClearTimeout], Pending)
  /\ count_terminal [ClearTimeout] = 0.
Proof. split; reflexivity. Qed.

(** C8: the timeout is the constant 30000 ms, armed once at the start of
    the session and never re-armed: (1) on every input it fires at most
    once, and only while nothing has cleared it (no [done], [error] or
    stream end handled) and before any terminal callback, after which the
    session resolves through [onError] with the timeout error; (2) a read
    still pending at 30000 ms after the start is aborted however recently
    the previous chunk arrived, when no line decoded before it cleared the
    timer; (3) a stream that ends before the deadline
    is never aborted; (4) a [fetch] not settled by the deadline is aborted. *)
Theorem timeout_fixed_from_start (JSON_parse : string -> option json) :
  REQUEST_TIMEOUT_MS = 30000%Z /\
  (forall fetched,
      timer_discipline (fst (streamCompletionWithEvents JSON_parse fetched))) /\
  (forall tf r rs t x rest,
      (tf < REQUEST_TIMEOUT_MS)%Z -> ok r = true ->
      Forall (fun p => (fst p < REQUEST_TIMEOUT_MS)%Z) rs ->
      snd (feed_chunks JSON_parse "" init_lstate (map snd rs)) <> None ->
      count_clear (fst (feed_chunks JSON_parse "" init_lstate (map snd rs))) = 0 ->
      (REQUEST_TIMEOUT_MS <= t)%Z ->
      fst (streamCompletionWithEvents JSON_parse
             (Some (tf, FResp (with_body r (map timed rs ++ (t, x) :: rest))))) =
      (fst (feed_chunks JSON_parse "" init_lstate (map snd rs)) ++
       [TimerFires; ReleaseLock; ClearTimeout; Call (OnError timeout_message)])%list) /\
  (forall tf r rs te,
      (tf < REQUEST_TIMEOUT_MS)%Z ->
      Forall (fun p => (fst p < REQUEST_TIMEOUT_MS)%Z) rs ->
      (te < REQUEST_TIMEOUT_MS)%Z ->
      count_timer (fst (streamCompletionWithEvents JSON_parse
                          (Some (tf, FResp (with_body r (map timed rs ++ [(te, REnd)])))))) = 0) /\
  (forall fetched,
      match fetched with None => True | Some (t, _) => (REQUEST_TIMEOUT_MS <= t)%Z end ->
      fst (streamCompletionWithEvents JSON_parse fetched) =
      [TimerFires; ClearTimeout; Call (OnError timeout_message)]).
Proof.
  split; [reflexivity|]. split; [|split; [|split]].
  - intros fetched. pose proof (session_post JSON_parse fetched) as H.
    destruct (streamCompletionWithEvents JSON_parse fetched). exact (proj2 H).
  - intros tf r rs t x rest Htf Hok Hrs Hnr Hcl Ht.
    unfold streamCompletionWithEvents, with_body. cbn [ok body].
    rewrite (leb_timeout_false tf Htf), Hok. cbn [negb].
    rewrite read_loop_chunks by exact Hrs.
    destruct (feed_chunks JSON_parse "" init_lstate (map snd rs)) as [a [[st b]|]];
      [|cbn in Hnr; congruence].
    cbn [fst] in Hcl. cbn [read_loop].
    rewrite (count_clear_existsb a Hcl), (leb_timeout_true t Ht). cbn.
    rewrite <- app_assoc. reflexivity.
  - intros tf r rs te Htf Hrs Hte.
    unfold streamCompletionWithEvents, with_body. cbn [ok body].
    rewrite (leb_timeout_false tf Htf).
    destruct (negb (ok r)).
    { match goal with |- context [http_error_message ?x] =>
        destruct (http_error_message x); reflexivity end. }
    rewrite read_loop_chunks by exact Hrs.
    destruct (feed_chunks JSON_parse "" init_lstate (map snd rs)) as [a [[st b]|]] eqn:Hf;
      apply feed_chunks_post in Hf.
    + cbn [read_loop]. rewrite (leb_timeout_false te Hte), andb_false_r. cbn.
      rewrite app_nil_r. destruct Hf as [(_ & Hm) _]. count_simpl. lia.
    + destruct Hf as [_ Hm]. count_simpl. lia.
  - intros [[t fr]|] Ht; [|reflexivity].
    unfold streamCompletionWithEvents. rewrite (leb_timeout_true t Ht). reflexivity.
Qed.

Lemma timeout_fixed_from_start_witness :
  fst (streamCompletionWithEvents sample_parse
         (Some (5%Z, FResp (with_body (ok_response [])
            (map timed [(29999%Z, lines_text ["event: content"; "data: " ++ text_payload "A"])]
             ++ [(30000%Z, REnd)])))))
  = [Call (OnContent (JStr "A")); TimerFires; ReleaseLock; ClearTimeout;
     Call (OnError timeout_message)].
Proof.
  destruct (timeout_fixed_from_start sample_parse) as (_ & _ & H & _).
  rewrite H; [| reflexivity | reflexivity | repeat constructor
             | vm_compute; discriminate | vm_compute; reflexivity
             | unfold REQUEST_TIMEOUT_MS; lia].
  vm_compute. reflexivity.
Defined.

Lemma substring_full (d : string) : substring 0 (String.length d) d = d.
Proof. induction d as [|c d IH]; simpl; [reflexivity|]. rewrite IH. reflexivity. Qed.

Lemma slice_data (d : string) : slice ("data: " ++ d) 6 = d.
Proof. unfold slice. simpl. rewrite Nat.sub_0_r. apply substring_full. Qed.

(** A line with no terminator, followed by one. *)
Lemma split_line_cons (l y : string) :
  split_nl l = [l] -> split_nl (l ++ LF ++ y) = l :: split_nl y.
Proof.
  revert y. induction l as [|c l IH]; intros y H; [reflexivity|].
  simpl in H |- *. destruct (Ascii.eqb c nl); [discriminate|].
  pose proof (split_nl_nonempty l) as Hne.
  destruct (split_nl l) as [|x [|z xs]] eqn:E; [congruence| |discriminate].
  injection H as Hx. subst x. pose proof (IH y eq_refl) as H'. simpl in H'.
  rewrite H'. reflexivity.
Qed.

Lemma split_lines_text (la : list string) (y : string) :
  Forall (fun l => split_nl l = [l]) la ->
  split_nl (lines_text la ++ y) = (la ++ split_nl y)%list.
Proof.
  intros H. induction H as [|l la Hl _ IH]; [reflexivity|].
  change (lines_text (l :: la)) with (l ++ LF ++ lines_text la).
  rewrite !str_app_assoc, split_line_cons by exact Hl.
  rewrite IH. reflexivity.
Qed.

Lemma data_line_no_nl (s : string) :
  split_nl s = [s] -> split_nl ("data: " ++ s) = ["data: " ++ s].
Proof. intros H. simpl. rewrite H. reflexivity. Qed.

Section FrameLemmas.

Variable JSON_parse : string -> option json.

Lemma process_data_line (st : lstate) (d : string) :
  process_line JSON_parse st ("data: " ++ d) =
  match JSON_parse d with Some data => dispatch st data | None => skip st end.
Proof.
  unfold process_line. rewrite slice_data.
  replace (startsWith ("data: " ++ d) "event: ") with false by reflexivity.
  replace (startsWith ("data: " ++ d) "data: ") with true
    by (unfold startsWith; simpl; destruct d; reflexivity).
  reflexivity.
Qed.

(** The chunk loop over a chunk made of complete lines [la], one more line
    [l], and any text [y]. *)
Lemma feed_chunk_lines (st : lstate) (la : list string) (l y : string) :
  Forall (fun x => split_nl x = [x]) la -> split_nl l = [l] ->
  feed_chunk JSON_parse "" st (lines_text la ++ l ++ LF ++ y) =
  let (a, f) := process_lines JSON_parse st (la ++ l :: removelast (split_nl y)) in
  (a, f, last (split_nl y) "").
Proof.
  intros Hla Hl. unfold feed_chunk. cbn [String.append].
  rewrite split_lines_text by exact Hla. rewrite split_line_cons by exact Hl.
  rewrite removelast_app by discriminate.
  rewrite last_app_nonempty by discriminate.
  pose proof (split_nl_nonempty y) as Hy.
  replace (removelast (l :: split_nl y)) with (l :: removelast (split_nl y))
    by (destruct (split_nl y); [congruence|reflexivity]).
  replace (last (l :: split_nl y) "") with (last (split_nl y) "")
    by (destruct (split_nl y); [congruence|reflexivity]).
  reflexivity.
Qed.

Lemma feed_chunk_lines_nil (st : lstate) (la : list string) (y : string) :
  Forall (fun x => split_nl x = [x]) la ->
  feed_chunk JSON_parse "" st (lines_text la ++ y) =
  let (a, f) := process_lines JSON_parse st (la ++ removelast (split_nl y)) in
  (a, f, last (split_nl y) "").
Proof.
  intros Hla. unfold feed_chunk. cbn [String.append].
  rewrite split_lines_text by exact Hla.
  rewrite removelast_app by apply split_nl_nonempty.
  rewrite last_app_nonempty by apply split_nl_nonempty.
  reflexivity.
Qed.

Lemma process_lines_skip (st : lstate) (l : string) (ls : list string) :
  process_line JSON_parse st l = ([], Continue st) ->
  process_lines JSON_parse st (l :: ls) = process_lines JSON_parse st ls.
Proof.
  intros H. cbn [process_lines]. rewrite H.
  destruct (process_lines JSON_parse st ls). reflexivity.
Qed.

Lemma read_loop_first_chunk (armed : bool) (b : string) (st : lstate) (t : Z) (c1 c2 : string)
    (rest : list (Z * read_result)) :
  feed_chunk JSON_parse b st c1 = feed_chunk JSON_parse b st c2 ->
  read_loop JSON_parse armed b st ((t, RChunk c1) :: rest) =
  read_loop JSON_parse armed b st ((t, RChunk c2) :: rest).
Proof. intros H. simpl. rewrite H. reflexivity. Qed.

End FrameLemmas.

(** C5: a data line whose payload [JSON.parse] rejects is skipped: a stream
    with such a line inserted between two complete lines has exactly the
    effects, callbacks and outcome of the stream without it, so it neither
    ends the session nor changes how later frames are decoded. *)
Theorem malformed_frame_skipped (JSON_parse : string -> option json)
    (tf t : Z) (r : Response) (la : list string) (s y : string)
    (rest : list (Z * read_result)) :
  JSON_parse s = None ->
  split_nl s = [s] ->
  Forall (fun l => split_nl l = [l]) la ->
  streamCompletionWithEvents JSON_parse
    (Some (tf, FResp (with_body r ((t, RChunk (lines_text la ++ ("data: " ++ s) ++ LF ++ y))
                                   :: rest)))) =
  streamCompletionWithEvents JSON_parse
    (Some (tf, FResp (with_body r ((t, RChunk (lines_text la ++ y)) :: rest)))).
Proof.
  intros Hs Hnl Hla. unfold streamCompletionWithEvents, with_body. cbn [ok body].
  rewrite (read_loop_first_chunk JSON_parse true "" init_lstate t _ (lines_text la ++ y)).
  { reflexivity. }
  rewrite feed_chunk_lines by (try apply data_line_no_nl; assumption).
  rewrite feed_chunk_lines_nil by exact Hla.
  rewrite !process_lines_app.
  destruct (process_lines JSON_parse init_lstate la) as [a f].
  destruct f as [st|]; [|reflexivity].
  rewrite process_lines_skip; [reflexivity|].
  rewrite process_data_line, Hs. reflexivity.
Qed.

Lemma malformed_frame_skipped_witness :
  streamCompletionWithEvents sample_parse
    (Some (5%Z, FResp (with_body (ok_response [])
       [(10%Z, RChunk (lines_text ["event: content"] ++ ("data: " ++ "{bad") ++ LF ++
                       lines_text ["data: " ++ text_payload "Hi"; ""; "event: done"; "data: {}"]));
        (20%Z, REnd)])))
  = ([Call (OnContent (JStr "Hi")); ClearTimeout; Call OnComplete; ReleaseLock], Settled).
Proof.
  rewrite (malformed_frame_skipped sample_parse 5 10 (ok_response []) ["event: content"] "{bad");
    [| reflexivity | reflexivity | repeat constructor].
  vm_compute. reflexivity.
Defined.

Lemma map_sources_null (l : list json) : In JNull l -> map_sources l = None.
Proof.
  induction l as [|x l IH]; simpl; [contradiction|].
  intros [->|H]; [reflexivity|].
  rewrite (IH H). destruct (map_source x); reflexivity.
Qed.

Lemma map_source_field (x : json) :
  x <> JNull ->
  map_source x = Some (mkSource (field x "id") (field x "title") (field x "content")
                                (field x "similarity") (field x "type")).
Proof. destruct x; [contradiction|reflexivity..]. Qed.

Lemma map_sources_objects (l : list json) :
  ~ In JNull l ->
  exists srcs, map_sources l = Some srcs /\
    Forall2 (fun s src => src = mkSource (field s "id") (field s "title") (field s "content")
                                         (field s "similarity") (field s "type")) l srcs.
Proof.
  induction l as [|x l IH]; intros Hn; [exists []; split; constructor|].
  assert (Hx : x <> JNull) by (intros ->; apply Hn; now left).
  destruct IH as (srcs & E & F); [intros H; apply Hn; now right|].
  eexists. simpl. rewrite (map_source_field x Hx), E. split; [reflexivity|].
  constructor; [reflexivity|exact F].
Qed.



Section DispatchLemmas.

Variable JSON_parse : string -> option json.

Lemma process_lines_return_head (st : lstate) (l : string) (ls : list string) (a : list action) :
  process_line JSON_parse st l = (a, Return) ->
  process_lines JSON_parse st (l :: ls) = (a, Return).
Proof. intros H. cbn [process_lines]. rewrite H. reflexivity. Qed.

(** A parsed data line under the pending name [done]. *)
Lemma done_line_returns (st : lstate) (d : string) (v : json) (ls : list string) :
  currentEvent st = "done" -> JSON_parse d = Some v ->
  process_lines JSON_parse st (("data: " ++ d) :: ls) = ([ClearTimeout; Call OnComplete], Return).
Proof.
  intros Hst Hd. apply process_lines_return_head.
  rewrite process_data_line, Hd. unfold dispatch. rewrite Hst. reflexivity.
Qed.






End DispatchLemmas.

(** C6: a [done] frame (a data line whose payload [JSON.parse] accepts,
    whatever that payload is, under the pending name [done]) clears the
    timeout, invokes [onComplete] and ends the session: nothing after it in
    the chunk ([y]) or in later reads ([rest]) is processed. [la] are the
    complete lines before it, [a] their effects. *)
Theorem done_frame_completes (JSON_parse : string -> option json)
    (tf t : Z) (r : Response) (la : list string) (s y : string) (v : json)
    (rest : list (Z * read_result)) (a : list action) (st : lstate) :
  ok r = true -> (tf < REQUEST_TIMEOUT_MS)%Z -> (t < REQUEST_TIMEOUT_MS)%Z ->
  Forall (fun l => split_nl l = [l]) la -> split_nl s = [s] ->
  JSON_parse s = Some v ->
  process_lines JSON_parse init_lstate la = (a, Continue st) ->
  currentEvent st = "done" ->
  streamCompletionWithEvents JSON_parse
    (Some (tf, FResp (with_body r ((t, RChunk (lines_text la ++ ("data: " ++ s) ++ LF ++ y))
                                   :: rest)))) =
  ((a ++ [ClearTimeout; Call OnComplete; ReleaseLock])%list, Settled).
Proof.
  intros Hok Htf Ht Hla Hnl Hs Hpre Hst.
  unfold streamCompletionWithEvents, with_body. cbn [ok body].
  rewrite (leb_timeout_false tf Htf), Hok. cbn [negb read_loop].
  rewrite (leb_timeout_false t Ht). cbn [andb].
  rewrite feed_chunk_lines by (try apply data_line_no_nl; assumption).
  rewrite process_lines_app, Hpre.
  rewrite (done_line_returns JSON_parse st s v _ Hst Hs).
  rewrite <- app_assoc. reflexivity.
Qed.

Lemma done_frame_completes_witness :
  streamCompletionWithEvents sample_parse
    (Some (5%Z, FResp (with_body (ok_response [])
       [(10%Z, RChunk (lines_text ["event: done"] ++ ("data: " ++ "null") ++ LF ++
                       lines_text ["event: content"; "data: " ++ text_payload "Hi"]));
        (20%Z, RChunk (lines_text ["event: error"; "data: {}"]))])))
  = ([ClearTimeout; Call OnComplete; ReleaseLock], Settled).
Proof.
  rewrite (done_frame_completes sample_parse 5 10 (ok_response []) ["event: done"] "null" _ JNull
             _ [] (mkL "done" false));
    [reflexivity | reflexivity | reflexivity | reflexivity | repeat constructor
    | reflexivity | reflexivity | reflexivity | reflexivity].
Defined.




(* ------------------------------------------------------------------ *)
(** ** Transcript reconciler *)

Lemma nth_update_msg (bot : string) (f : Message -> Message) (ms : list Message) (i : nat)
    (m : Message) :
  nth_error ms i = Some m -> id m = bot ->
  nth_error (update_msg bot f ms) i = Some (f m).
Proof.
  intros H Hid. unfold update_msg. rewrite nth_error_map, H. cbn.
  rewrite Hid, String.eqb_refl. reflexivity.
Qed.

Lemma deltas_accumulate (bot : string) (st : AppState) (cs : list callback) (i : nat)
    (m : Message) (r : string) :
  Forall (fun c => is_error c = false) cs ->
  nth_error (messages st) i = Some m -> id m = bot -> reasoning m = Some r ->
  exists m', nth_error (messages (apply_callbacks bot st cs)) i = Some m' /\
             content m' = content m ++ content_text cs /\
             reasoning m' = Some (r ++ reasoning_text cs).
Proof.
  revert st m r. induction cs as [|c cs IH]; intros st m r Hcs Hm Hid Hr.
  - exists m. cbn. rewrite !str_app_nil_r. auto.
  - pose proof (Forall_inv Hcs) as Hc. pose proof (Forall_inv_tail Hcs) as Hcs'.
    unfold apply_callbacks. cbn [fold_left]. fold (apply_callbacks bot (apply_callback bot st c) cs).
    destruct c as [v|v|srcs| |msg]; [| | | |discriminate].
    + destruct (IH (apply_callback bot st (OnContent v)) (append_content v m) r Hcs'
                  (nth_update_msg _ _ _ _ _ Hm Hid) Hid Hr) as (m' & E & Hc1 & Hr1).
      exists m'. rewrite E, Hc1, Hr1. cbn. rewrite str_app_assoc. auto.
    + destruct (IH (apply_callback bot st (OnReasoning v)) (append_reasoning v m)
                  (r ++ js_to_string v) Hcs' (nth_update_msg _ _ _ _ _ Hm Hid) Hid)
        as (m' & E & Hc1 & Hr1).
      { unfold append_reasoning. rewrite Hr. reflexivity. }
      exists m'. rewrite E, Hc1, Hr1. cbn. rewrite str_app_assoc. auto.
    + destruct (IH (apply_callback bot st (OnSources srcs)) (set_sources srcs m) r Hcs'
                  (nth_update_msg _ _ _ _ _ Hm Hid) Hid Hr) as (m' & E & Hc1 & Hr1).
      exists m'. rewrite E, Hc1, Hr1. auto.
    + destruct (IH (apply_callback bot st OnComplete) (settle m) r Hcs'
                  (nth_update_msg _ _ _ _ _ Hm Hid) Hid Hr) as (m' & E & Hc1 & Hr1).
      exists m'. rewrite E, Hc1, Hr1. auto.
Qed.

(** C7: from the empty assistant message [handleSendMessage] appends,
    any sequence of callbacks before a possible [onError] (content,
    reasoning and sources deltas, in any interleaving, and [onComplete])
    leaves its [content] equal to the concatenation of the content
    payloads and its [reasoning] equal to the concatenation of the
    reasoning payloads, each in arrival order. *)
Theorem content_reasoning_accumulate (now : Z) (st : AppState) (cs : list callback) :
  String.eqb (trim (input st)) "" = false -> isLoading st = false ->
  Forall (fun c => is_error c = false) cs ->
  exists m,
    nth_error (messages (apply_callbacks (string_of_Z (now + 1)) (handleSendMessage now st) cs))
      (length (messages st) + 1) = Some m /\
    content m = content_text cs /\
    reasoning m = Some (reasoning_text cs).
Proof.
  intros Hin Hload Hcs. unfold handleSendMessage. rewrite Hin, Hload. cbn [orb].
  match goal with |- context [apply_callbacks ?b ?s cs] =>
    assert (Hn : exists m0, nth_error (messages s) (length (messages st) + 1) = Some m0 /\
                  id m0 = b /\ content m0 = "" /\ reasoning m0 = Some "")
  end.
  { eexists. split.
    - cbn [messages]. rewrite nth_error_app2 by lia.
      replace (length (messages st) + 1 - length (messages st)) with 1 by lia.
      reflexivity.
    - repeat split. }
  destruct Hn as (m0 & Hm0 & Hid & Hc & Hr).
  destruct (deltas_accumulate _ _ _ _ _ _ Hcs Hm0 Hid Hr) as (m' & E & Hc' & Hr').
  exists m'. rewrite Hc in Hc'. auto.
Qed.

Lemma content_reasoning_accumulate_witness :
  exists m,
    nth_error (messages (apply_callbacks (string_of_Z (1000 + 1)) (handleSendMessage 1000 app_hello)
       [OnContent (JStr "A"); OnReasoning (JStr "r"); OnContent (JStr "B"); OnComplete]))
      (length (messages app_hello) + 1) = Some m /\
    content m = "AB" /\ reasoning m = Some "r".
Proof.
  apply (content_reasoning_accumulate 1000 app_hello
           [OnContent (JStr "A"); OnReasoning (JStr "r"); OnContent (JStr "B"); OnComplete]).
  - reflexivity.
  - reflexivity.
  - repeat constructor.
Defined.

(** C1, as stated, fails: a session that delivered the content "Hi" and
    then an [error] frame leaves the assistant message with the error
    annotation only; the partial content is gone. *)
Lemma partial_content_discarded_counterexample :
  map content (messages (send_and_stream sample_parse 1000 app_hello
    (Some (5%Z, FResp (ok_response
       [(10%Z, RChunk (lines_text ["event: content"; "data: " ++ text_payload "Hi"; "";
                                   "event: error"; "data: " ++ message_payload "rate limited"; ""]));
        (20%Z, REnd)])))))
  = ["hello"; "**Error:** rate limited"].
Proof. vm_compute. reflexivity. Qed.

(** C1 (amended): [onError] always replaces the target message's content
    with the annotation [**Error:** <message>] (the message defaulting to
    "Unknown error occurred"), whatever content had streamed, settles it,
    surfaces the same text out-of-band ([setError]), ends loading and keeps
    the retry snapshot; its reasoning is kept. *)
Theorem on_error_replaces_content (bot : string) (st : AppState) (message : string) (i : nat)
    (m : Message) :
  nth_error (messages st) i = Some m -> id m = bot ->
  let errorMsg := if String.eqb message "" then "Unknown error occurred" else message in
  let st' := apply_callback bot st (OnError message) in
  exists m',
    nth_error (messages st') i = Some m' /\
    content m' = "**Error:** " ++ errorMsg /\ reasoning m' = reasoning m /\
    isThinking m' = Some false /\
    error st' = Some errorMsg /\ lastSend st' = lastSend st /\ isLoading st' = false.
Proof.
  intros Hm Hid errorMsg st'. exists (set_error_content errorMsg m).
  split; [apply nth_update_msg; assumption|]. repeat split.
Qed.

Lemma on_error_replaces_content_witness :
  exists m',
    nth_error (messages (apply_callback "b" (mkApp [mkMessage "b" Assistant "Hi" (Some "") 0 None None
                                                     (Some false)] "" true None None)
                           (OnError "rate limited"))) 0 = Some m' /\
    content m' = "**Error:** " ++ "rate limited" /\ reasoning m' = Some "" /\
    isThinking m' = Some false /\ error (apply_callback "b" (mkApp [mkMessage "b" Assistant "Hi" (Some "") 0 None None
                                                     (Some false)] "" true None None)
                           (OnError "rate limited")) = Some "rate limited" /\
    lastSend (apply_callback "b" (mkApp [mkMessage "b" Assistant "Hi" (Some "") 0 None None
                                                     (Some false)] "" true None None)
                           (OnError "rate limited")) = None /\
    isLoading (apply_callback "b" (mkApp [mkMessage "b" Assistant "Hi" (Some "") 0 None None
                                                     (Some false)] "" true None None)
                           (OnError "rate limited")) = false.
Proof.
  apply (on_error_replaces_content "b" (mkApp [mkMessage "b" Assistant "Hi" (Some "") 0 None None
                                                (Some false)] "" true None None)
           "rate limited" 0 (mkMessage "b" Assistant "Hi" (Some "") 0 None None (Some false)));
    reflexivity.
Defined.

Lemma lastSend_apply_callbacks (bot : string) (cs : list callback) : forall st,
  lastSend (apply_callbacks bot st cs) = if existsb is_complete cs then None else lastSend st.
Proof.
  induction cs as [|c cs IH]; intros st; [reflexivity|].
  unfold apply_callbacks in *. cbn [fold_left existsb]. rewrite IH.
  destruct c; cbn; destruct (existsb is_complete cs); reflexivity.
Qed.

(** C9: the retry snapshot [lastSendRef] is cleared by [onComplete] and kept
    by [onError], so after a session it is empty exactly when [onComplete]
    fired; retry with no snapshot changes nothing; retry with a snapshot
    restores its messages and input; a send that passes its guard
    overwrites the single snapshot with the current messages and input. *)
Theorem retry_snapshot_lifecycle :
  (forall bot st, lastSend (apply_callback bot st OnComplete) = None) /\
  (forall bot st message, lastSend (apply_callback bot st (OnError message)) = lastSend st) /\
  (forall bot st cs, lastSend (apply_callbacks bot st cs) =
                     if existsb is_complete cs then None else lastSend st) /\
  (forall st, lastSend st = None -> handleRetry st = st) /\
  (forall st ms inp, lastSend st = Some (ms, inp) ->
     messages (handleRetry st) = ms /\ input (handleRetry st) = inp /\
     error (handleRetry st) = None /\ lastSend (handleRetry st) = lastSend st) /\
  (forall now st, String.eqb (trim (input st)) "" = false -> isLoading st = false ->
     lastSend (handleSendMessage now st) = Some (messages st, trim (input st))).
Proof.
  split; [intros; reflexivity|].
  split; [intros; reflexivity|].
  split; [intros bot st cs; apply lastSend_apply_callbacks|].
  split; [intros st H; unfold handleRetry; rewrite H; reflexivity|].
  split; [intros st ms inp H; unfold handleRetry; rewrite H; repeat split|].
  intros now st H1 H2. unfold handleSendMessage. rewrite H1, H2. reflexivity.
Qed.

Lemma retry_snapshot_lifecycle_witness :
  handleRetry (apply_callbacks "1001" (handleSendMessage 1000 app_hello) [OnContent (JStr "Hi"); OnComplete])
    = apply_callbacks "1001" (handleSendMessage 1000 app_hello) [OnContent (JStr "Hi"); OnComplete] /\
  messages (handleRetry (apply_callbacks "1001" (handleSendMessage 1000 app_hello) [OnError "boom"])) = [] /\
  input (handleRetry (apply_callbacks "1001" (handleSendMessage 1000 app_hello) [OnError "boom"])) = "hello" /\
  lastSend (handleSendMessage 1000 app_hello) = Some ([], "hello").
Proof.
  destruct retry_snapshot_lifecycle as (_ & _ & Hcs & Hnone & Hsome & Hsend).
  split; [|split; [|split]].
  - apply Hnone. rewrite Hcs. reflexivity.
  - apply (Hsome _ [] "hello"). rewrite Hcs. reflexivity.
  - apply (Hsome _ [] "hello"). rewrite Hcs. reflexivity.
  - apply (Hsend 1000%Z app_hello); reflexivity.
Defined.

(* ------------------------------------------------------------------ *)
(** ** Further properties of the decoder and the session *)

Lemma split_nl_app_single (x y : string) :
  split_nl x = [x] -> split_nl y = [y] -> split_nl (x ++ y) = [x ++ y].
Proof.
  induction x as [|c x IH]; intros Hx Hy; [exact Hy|].
  simpl in Hx |- *. destruct (Ascii.eqb c nl); [discriminate|].
  pose proof (split_nl_nonempty x) as Hne.
  destruct (split_nl x) as [|a [|b l]] eqn:E; [congruence| |discriminate].
  injection Hx as Ha. subst a. rewrite (IH eq_refl Hy). reflexivity.
Qed.

Section MoreDecoder.

Variable JSON_parse : string -> option json.

(** Text with no line terminator only lengthens the buffer. *)
Lemma feed_chunk_tail (buffer : string) (st : lstate) (c s : string) :
  split_nl s = [s] ->
  feed_chunk JSON_parse buffer st (c ++ s) =
  let '(a, f, b) := feed_chunk JSON_parse buffer st c in (a, f, b ++ s).
Proof.
  intros Hs. unfold feed_chunk.
  rewrite <- str_app_assoc, (split_nl_app (buffer ++ c) s).
  rewrite (split_nl_app_single _ _ (split_nl_last (buffer ++ c)) Hs).
  rewrite removelast_last, last_last.
  destruct (process_lines JSON_parse st (removelast (split_nl (buffer ++ c)))). reflexivity.
Qed.

Lemma read_loop_tail (rs : list (Z * read_result)) : forall armed buffer st t t' c s rest,
  split_nl s = [s] ->
  read_loop JSON_parse armed buffer st (rs ++ (t, RChunk (c ++ s)) :: (t', REnd) :: rest)%list =
  read_loop JSON_parse armed buffer st (rs ++ (t, RChunk c) :: (t', REnd) :: rest)%list.
Proof.
  induction rs as [|[t0 r0] rs IH]; intros armed buffer st t t' c s rest Hs; simpl.
  - destruct (armed && Z.leb REQUEST_TIMEOUT_MS t); [reflexivity|].
    rewrite feed_chunk_tail by exact Hs.
    destruct (feed_chunk JSON_parse buffer st c) as [[a f] b].
    destruct f; reflexivity.
  - destruct (armed && Z.leb REQUEST_TIMEOUT_MS t0); [reflexivity|].
    destruct r0 as [c0| |e]; try reflexivity.
    destruct (feed_chunk JSON_parse buffer st c0) as [[a f] b].
    destruct f; [|reflexivity].
    rewrite IH by exact Hs. reflexivity.
Qed.

Lemma other_line_skip (st : lstate) (l : string) :
  l <> "" -> startsWith l "event: " = false -> startsWith l "data: " = false ->
  process_line JSON_parse st l = ([], Continue st).
Proof.
  intros Hne He Hd. unfold process_line. rewrite He, Hd.
  destruct (String.eqb_spec l ""); [contradiction|reflexivity].
Qed.

Lemma process_line_no_release (st : lstate) (l : string) :
  count_release (fst (process_line JSON_parse st l)) = 0.
Proof.
  unfold process_line, dispatch, skip.
  repeat match goal with |- context [match ?e with _ => _ end] => destruct e end; reflexivity.
Qed.

Lemma process_lines_no_release (ls : list string) : forall st,
  count_release (fst (process_lines JSON_parse st ls)) = 0.
Proof.
  induction ls as [|l ls IH]; intros st; simpl; [reflexivity|].
  pose proof (process_line_no_release st l) as H.
  destruct (process_line JSON_parse st l) as [a f]. destruct f as [st'|]; [|exact H].
  specialize (IH st'). destruct (process_lines JSON_parse st' ls) as [a' f'].
  simpl in *. unfold count_release in *. rewrite filter_app, length_app. lia.
Qed.

Lemma read_loop_no_release (reads : list (Z * read_result)) : forall armed buffer st,
  count_release (fst (read_loop JSON_parse armed buffer st reads)) = 0.
Proof.
  induction reads as [|[t r] reads IH]; intros armed buffer st; simpl;
    [destruct armed; reflexivity|].
  destruct (armed && Z.leb REQUEST_TIMEOUT_MS t); [reflexivity|].
  destruct r as [c| |e]; try reflexivity.
  unfold feed_chunk.
  pose proof (process_lines_no_release (removelast (split_nl (buffer ++ c))) st) as Ha.
  destruct (process_lines JSON_parse st (removelast (split_nl (buffer ++ c)))) as [a f].
  destruct f as [st'|]; [|exact Ha].
  specialize (IH (armed && negb (existsb is_clear a)) (last (split_nl (buffer ++ c)) "") st').
  destruct (read_loop JSON_parse (armed && negb (existsb is_clear a))
              (last (split_nl (buffer ++ c)) "") st' reads) as [a' ex].
  simpl in *. unfold count_release in *. rewrite filter_app, length_app. lia.
Qed.

End MoreDecoder.

(** X1: a line still unterminated when the stream ends is never processed:
    text without a line terminator at the end of the last chunk has no
    effect at all, even when it is a complete [data:] frame. *)
Theorem unterminated_tail_dropped (JSON_parse : string -> option json) (tf : Z)
    (r : Response) (rs : list (Z * read_result)) (t t' : Z) (c s : string)
    (rest : list (Z * read_result)) :
  split_nl s = [s] ->
  streamCompletionWithEvents JSON_parse
    (Some (tf, FResp (with_body r (rs ++ (t, RChunk (c ++ s)) :: (t', REnd) :: rest)%list))) =
  streamCompletionWithEvents JSON_parse
    (Some (tf, FResp (with_body r (rs ++ (t, RChunk c) :: (t', REnd) :: rest)%list))).
Proof.
  intros Hs. unfold streamCompletionWithEvents, with_body. cbn [ok body].
  rewrite read_loop_tail by exact Hs. reflexivity.
Qed.

Lemma unterminated_tail_dropped_witness :
  streamCompletionWithEvents sample_parse
    (Some (5%Z, FResp (with_body (ok_response [])
       ([] ++ (10%Z, RChunk (("event: done" ++ LF) ++ "data: {}")) :: (20%Z, REnd) :: [])%list)))
  = ([ClearTimeout; Call (OnError "Connection closed without receiving response"); ReleaseLock],
     Settled).
Proof.
  rewrite (unterminated_tail_dropped sample_parse 5 (ok_response []) [] 10 20
             ("event: done" ++ LF) "data: {}" []) by reflexivity.
  vm_compute. reflexivity.
Defined.

(** X2: a line that is neither empty nor starts with [event: ] or
    [data: ] (an SSE comment, an [id:] or [retry:] field, [data:] without
    the space, or the lone carriage return of a CRLF blank line) changes
    nothing: the stream with it inserted between complete lines has the
    trace and outcome of the stream without it; in particular it does not
    clear the pending event name. *)
Theorem other_lines_ignored (JSON_parse : string -> option json) (tf t : Z) (r : Response)
    (la : list string) (l y : string) (rest : list (Z * read_result)) :
  split_nl l = [l] -> l <> "" ->
  startsWith l "event: " = false -> startsWith l "data: " = false ->
  Forall (fun x => split_nl x = [x]) la ->
  streamCompletionWithEvents JSON_parse
    (Some (tf, FResp (with_body r ((t, RChunk (lines_text la ++ l ++ LF ++ y)) :: rest)))) =
  streamCompletionWithEvents JSON_parse
    (Some (tf, FResp (with_body r ((t, RChunk (lines_text la ++ y)) :: rest)))).
Proof.
  intros Hnl Hne He Hd Hla. unfold streamCompletionWithEvents, with_body. cbn [ok body].
  rewrite (read_loop_first_chunk JSON_parse true "" init_lstate t _ (lines_text la ++ y)).
  { reflexivity. }
  rewrite feed_chunk_lines by assumption.
  rewrite feed_chunk_lines_nil by exact Hla.
  rewrite !process_lines_app.
  destruct (process_lines JSON_parse init_lstate la) as [a f].
  destruct f as [st|]; [|reflexivity].
  rewrite process_lines_skip; [reflexivity|].
  apply other_line_skip; assumption.
Qed.

Lemma other_lines_ignored_witness :
  streamCompletionWithEvents sample_parse
    (Some (5%Z, FResp (with_body (ok_response [])
       [(10%Z, RChunk (lines_text ["event: content"] ++ CR ++ LF ++
                       lines_text ["data: " ++ text_payload "Hi"; ""; "event: done"; "data: {}"]));
        (20%Z, REnd)])))
  = ([Call (OnContent (JStr "Hi")); ClearTimeout; Call OnComplete; ReleaseLock], Settled).
Proof.
  rewrite (other_lines_ignored sample_parse 5 10 (ok_response []) ["event: content"] CR);
    [| reflexivity | discriminate | reflexivity | reflexivity | repeat constructor].
  vm_compute. reflexivity.
Defined.

(** X3: under [content] or [reasoning], a data line whose payload is [null]
    or has a falsy [text] (missing, empty string, [0], [false], [null])
    makes no callback and leaves the decoder state as it was; in
    particular it does not count as received content. *)
Theorem falsy_text_frame_ignored (JSON_parse : string -> option json) (st : lstate)
    (d : string) (v : json) :
  (currentEvent st = "content" \/ currentEvent st = "reasoning") ->
  JSON_parse d = Some v ->
  (v = JNull \/ exists t, get_prop v "text" = Some t /\ truthy t = false) ->
  process_line JSON_parse st ("data: " ++ d) = ([], Continue st).
Proof.
  intros Hev Hp Hv. rewrite process_data_line, Hp. unfold dispatch.
  destruct Hv as [->|(t & Ht & Htr)].
  - destruct Hev as [E|E]; rewrite E; reflexivity.
  - rewrite Ht. destruct t as [t|].
    + rewrite Htr. destruct Hev as [E|E]; rewrite E; reflexivity.
    + destruct Hev as [E|E]; rewrite E; reflexivity.
Qed.

Lemma falsy_text_frame_ignored_witness :
  process_line sample_parse (mkL "content" false) ("data: " ++ text_payload "")
  = ([], Continue (mkL "content" false)).
Proof.
  apply (falsy_text_frame_ignored sample_parse (mkL "content" false) (text_payload "")
           (JObj [("text", JStr "")])).
  - left. reflexivity.
  - reflexivity.
  - right. exists (Some (JStr "")). split; reflexivity.
Defined.



(** X5: under [sources], a data line whose payload is not an array is
    skipped; an array with a [null] element is skipped too (reading [s.id]
    of [null] throws inside [data.map]); any other array gives exactly one
    [onSources] call, with one source per element, in order, whose fields
    are the element's [id], [title], [content], [similarity] and [type]
    ([undefined] for an element that is not an object). *)
Theorem sources_frame_outcome (JSON_parse : string -> option json) (st : lstate)
    (d : string) (v : json) :
  currentEvent st = "sources" -> JSON_parse d = Some v ->
  ((forall l, v <> JArr l) ->
   process_line JSON_parse st ("data: " ++ d) = ([], Continue st)) /\
  (forall l, v = JArr l -> In JNull l ->
   process_line JSON_parse st ("data: " ++ d) = ([], Continue st)) /\
  (forall l, v = JArr l -> ~ In JNull l ->
   exists srcs,
     process_line JSON_parse st ("data: " ++ d) = ([Call (OnSources srcs)], Continue st) /\
     Forall2 (fun s src => src = mkSource (field s "id") (field s "title") (field s "content")
                                          (field s "similarity") (field s "type")) l srcs).
Proof.
  intros E Hp. rewrite process_data_line, Hp. unfold dispatch. rewrite E. cbn -[map_sources].
  split; [|split].
  - intros Hn. destruct v; try reflexivity. exfalso. exact (Hn l eq_refl).
  - intros l -> Hin. rewrite (map_sources_null l Hin). reflexivity.
  - intros l -> Hin. destruct (map_sources_objects l Hin) as (srcs & Em & F).
    exists srcs. rewrite Em. split; [reflexivity|exact F].
Qed.

Lemma sources_frame_outcome_witness :
  exists srcs,
    process_line sample_parse (mkL "sources" false) ("data: " ++ sources_payload)
    = ([Call (OnSources srcs)], Continue (mkL "sources" false)) /\
    Forall2 (fun s src => src = mkSource (field s "id") (field s "title") (field s "content")
                                         (field s "similarity") (field s "type"))
      [JObj [("id", JStr "d1")]; JNum 7] srcs.
Proof.
  destruct (sources_frame_outcome sample_parse (mkL "sources" false) sources_payload
              (JArr [JObj [("id", JStr "d1")]; JNum 7]) eq_refl eq_refl) as (_ & _ & H).
  apply (H _ eq_refl).
  intros [Hx|[Hx|[]]]; discriminate.
Defined.

(** X6: [reader.releaseLock()] runs exactly once when the body is read
    (a response in time, ok, with a body) and the session settles, whatever
    the stream does; it never runs otherwise, in particular not when the
    session stays pending (a read that never settles after a [null] error
    frame cleared the timer). *)
Theorem release_lock_once (JSON_parse : string -> option json)
    (fetched : option (Z * fetch_result)) :
  let (acts, e) := streamCompletionWithEvents JSON_parse fetched in
  count_release acts =
  match fetched with
  | Some (t, FResp r) =>
      if (t <? REQUEST_TIMEOUT_MS)%Z && ok r &&
         match body r with Some _ => true | None => false end
      then match e with Settled => 1 | Pending => 0 end
      else 0
  | _ => 0
  end.
Proof.
  destruct fetched as [[t fr]|]; [|reflexivity].
  unfold streamCompletionWithEvents. rewrite Z.ltb_antisym.
  destruct (Z.leb REQUEST_TIMEOUT_MS t); cbn [negb andb];
    [destruct fr; reflexivity|].
  destruct fr as [r|e]; [|reflexivity].
  destruct (ok r); cbn [negb andb].
  - destruct (body r) as [reads|]; [|reflexivity].
    pose proof (read_loop_no_release JSON_parse reads true "" init_lstate) as H.
    destruct (read_loop JSON_parse true "" init_lstate reads) as [a ex]. cbn [fst] in H.
    unfold count_release in *.
    destruct ex; rewrite ?filter_app, ?length_app, H; reflexivity.
  - destruct (http_error_message r); reflexivity.
Qed.

Lemma error_null_chunk (JSON_parse : string -> option json) (d : string) :
  JSON_parse d = Some JNull -> split_nl d = [d] ->
  feed_chunk JSON_parse "" init_lstate (lines_text ["event: error"; "data: " ++ d]) =
  ([ClearTimeout], Continue (mkL "error" false), "").
Proof.
  intros Hd Hnl.
  replace (lines_text ["event: error"; "data: " ++ d])
    with (lines_text ["event: error"; "data: " ++ d] ++ "") by apply str_app_nil_r.
  rewrite feed_chunk_lines_nil by (repeat constructor; apply data_line_no_nl; exact Hnl).
  cbn [split_nl removelast last]. rewrite app_nil_r. cbn [process_lines].
  replace (process_line JSON_parse init_lstate "event: error")
    with ([] : list action, Continue (mkL "error" false)) by reflexivity.
  rewrite process_data_line, Hd. reflexivity.
Qed.

(** X20: an [error] frame whose payload is [null] runs [clearTimeout()]
    before [data.message] throws, and decoding goes on with no timer left:
    when the next read never settles, the session stays pending for good,
    with no terminal callback and no [releaseLock]; a stream end that
    comes at any time afterwards, even past the 30000 ms deadline, is
    processed as usual. *)
Theorem null_error_frame_disarms_timer (JSON_parse : string -> option json)
    (tf t t' : Z) (r : Response) (d : string) :
  (tf < REQUEST_TIMEOUT_MS)%Z -> ok r = true -> (t < REQUEST_TIMEOUT_MS)%Z ->
  JSON_parse d = Some JNull -> split_nl d = [d] ->
  streamCompletionWithEvents JSON_parse
    (Some (tf, FResp (with_body r [(t, RChunk (lines_text ["event: error"; "data: " ++ d]))])))
  = ([ClearTimeout], Pending) /\
  streamCompletionWithEvents JSON_parse
    (Some (tf, FResp (with_body r [(t, RChunk (lines_text ["event: error"; "data: " ++ d]));
                                   (t', REnd)])))
  = ([ClearTimeout; ClearTimeout; Call (OnError "Connection closed without receiving response");
      ReleaseLock], Settled).
Proof.
  intros Htf Hok Ht Hd Hnl.
  unfold streamCompletionWithEvents, with_body. cbn [ok body].
  rewrite (leb_timeout_false tf Htf), Hok. cbn [negb read_loop].
  rewrite (leb_timeout_false t Ht). cbn [andb].
  rewrite (error_null_chunk JSON_parse d Hd Hnl).
  split; reflexivity.
Qed.

Lemma null_error_frame_disarms_timer_witness :
  streamCompletionWithEvents sample_parse
    (Some (5%Z, FResp (with_body (ok_response [])
       [(10%Z, RChunk (lines_text ["event: error"; "data: " ++ "null"]))])))
  = ([ClearTimeout], Pending) /\
  streamCompletionWithEvents sample_parse
    (Some (5%Z, FResp (with_body (ok_response [])
       [(10%Z, RChunk (lines_text ["event: error"; "data: " ++ "null"])); (40000%Z, REnd)])))
  = ([ClearTimeout; ClearTimeout; Call (OnError "Connection closed without receiving response");
      ReleaseLock], Settled).
Proof.
  apply (null_error_frame_disarms_timer sample_parse 5 10 40000 (ok_response []) "null");
    reflexivity.
Defined.



(* ------------------------------------------------------------------ *)
(** ** Lemmas on the component state *)

Lemma string_of_Z_inj (a b : Z) : string_of_Z a = string_of_Z b -> a = b.
Proof.
  unfold string_of_Z. intros E.
  assert (Hn : forall z, Z.to_int z <> Decimal.Pos Decimal.Nil /\ Z.to_int z <> Decimal.Neg Decimal.Nil).
  { intros z. split; intros H.
    - pose proof (DecimalZ.of_to z) as Hz. rewrite H in Hz. cbn in Hz. subst z. discriminate H.
    - pose proof (DecimalZ.of_to z) as Hz. rewrite H in Hz. cbn in Hz. subst z. discriminate H. }
  destruct (Hn a) as [Ha1 Ha2], (Hn b) as [Hb1 Hb2].
  pose proof (NilZero.isi _ Ha1 Ha2) as Ia. pose proof (NilZero.isi _ Hb1 Hb2) as Ib.
  rewrite E, Ib in Ia. injection Ia as Ia.
  rewrite <- (DecimalZ.of_to a), <- (DecimalZ.of_to b), Ia. reflexivity.
Qed.

Lemma string_of_Z_succ_neq (z : Z) : string_of_Z z <> string_of_Z (z + 1).
Proof. intros H. apply string_of_Z_inj in H. lia. Qed.

Lemma id_bot_update (c : callback) (m : Message) : id (bot_update c m) = id m.
Proof. destruct c; reflexivity. Qed.

Lemma role_bot_update (c : callback) (m : Message) : msg_role (bot_update c m) = msg_role m.
Proof. destruct c; reflexivity. Qed.

Lemma id_bot_updates (cs : list callback) : forall m, id (bot_updates cs m) = id m.
Proof.
  unfold bot_updates. induction cs as [|c cs IH]; intros m; [reflexivity|].
  cbn [fold_left]. rewrite IH. apply id_bot_update.
Qed.

Lemma role_bot_updates (cs : list callback) : forall m, msg_role (bot_updates cs m) = msg_role m.
Proof.
  unfold bot_updates. induction cs as [|c cs IH]; intros m; [reflexivity|].
  cbn [fold_left]. rewrite IH. apply role_bot_update.
Qed.

Lemma bot_updates_cons (c : callback) (cs : list callback) (m : Message) :
  bot_updates (c :: cs) m = bot_updates cs (bot_update c m).
Proof. reflexivity. Qed.

Lemma messages_apply_callback (bot : string) (st : AppState) (c : callback) :
  messages (apply_callback bot st c) = update_msg bot (bot_update c) (messages st).
Proof. destruct c; reflexivity. Qed.

Lemma update_msg_id (bot : string) (ms : list Message) :
  update_msg bot (fun m => m) ms = ms.
Proof.
  unfold update_msg. induction ms as [|m ms IH]; [reflexivity|].
  cbn [map]. rewrite IH. destruct (String.eqb (id m) bot); reflexivity.
Qed.

Lemma update_msg_compose (bot : string) (f g : Message -> Message) (ms : list Message) :
  (forall m, id (f m) = id m) ->
  update_msg bot g (update_msg bot f ms) = update_msg bot (fun m => g (f m)) ms.
Proof.
  intros Hf. unfold update_msg. rewrite map_map. apply map_ext. intros m.
  destruct (String.eqb (id m) bot) eqn:E; [rewrite Hf, E|rewrite E]; reflexivity.
Qed.

Lemma update_msg_fresh (bot : string) (f : Message -> Message) (ms : list Message) :
  Forall (fun m => id m <> bot) ms -> update_msg bot f ms = ms.
Proof.
  unfold update_msg. induction 1 as [|m ms Hm _ IH]; [reflexivity|].
  cbn [map]. rewrite IH. apply String.eqb_neq in Hm. rewrite Hm. reflexivity.
Qed.

Lemma update_msg_app (bot : string) (f : Message -> Message) (a b : list Message) :
  update_msg bot f (a ++ b) = (update_msg bot f a ++ update_msg bot f b)%list.
Proof. unfold update_msg. apply map_app. Qed.

Lemma messages_apply_callbacks (bot : string) (cs : list callback) : forall st,
  messages (apply_callbacks bot st cs) = update_msg bot (bot_updates cs) (messages st).
Proof.
  unfold apply_callbacks. induction cs as [|c cs IH]; intros st.
  - symmetry. apply update_msg_id.
  - cbn [fold_left]. rewrite IH, messages_apply_callback.
    rewrite update_msg_compose by apply id_bot_update. reflexivity.
Qed.

Lemma isLoading_apply_callbacks (bot : string) (cs : list callback) : forall st,
  isLoading (apply_callbacks bot st cs) = if existsb is_terminal cs then false else isLoading st.
Proof.
  unfold apply_callbacks. induction cs as [|c cs IH]; intros st; [reflexivity|].
  cbn [fold_left existsb]. rewrite IH.
  destruct c; cbn [is_terminal orb]; try reflexivity;
    destruct (existsb is_terminal cs); reflexivity.
Qed.

Lemma input_apply_callbacks (bot : string) (cs : list callback) : forall st,
  input (apply_callbacks bot st cs) = input st.
Proof.
  unfold apply_callbacks. induction cs as [|c cs IH]; intros st; [reflexivity|].
  cbn [fold_left]. rewrite IH. destruct c; reflexivity.
Qed.

Lemma error_apply_callbacks (bot : string) (cs : list callback) : forall st,
  existsb is_error cs = false -> error (apply_callbacks bot st cs) = error st.
Proof.
  unfold apply_callbacks. induction cs as [|c cs IH]; intros st H; [reflexivity|].
  cbn [fold_left existsb] in *. apply orb_false_iff in H as [H1 H2].
  rewrite IH by exact H2. destruct c; try reflexivity; discriminate H1.
Qed.

Lemma isThinking_bot_updates (cs : list callback) : forall m,
  isThinking (bot_updates cs m) =
  if existsb (fun c => is_content c || is_terminal c) cs then Some false else isThinking m.
Proof.
  induction cs as [|c cs IH]; intros m; [reflexivity|].
  rewrite bot_updates_cons, IH. cbn [existsb].
  destruct (existsb (fun c => is_content c || is_terminal c) cs);
    destruct c; rewrite ?orb_true_r; reflexivity.
Qed.

Lemma searchSteps_bot_updates (cs : list callback) : forall m,
  searchSteps (bot_updates cs m) =
  if existsb is_sources cs then Some [mkStep "1" "Analyzing documents..." "completed"]
  else searchSteps m.
Proof.
  induction cs as [|c cs IH]; intros m; [reflexivity|].
  rewrite bot_updates_cons, IH. cbn [existsb].
  destruct (existsb is_sources cs); destruct c; rewrite ?orb_true_r; reflexivity.
Qed.

Lemma reasoning_bot_updates (cs : list callback) : forall m r,
  reasoning m = Some r -> reasoning (bot_updates cs m) = Some (r ++ reasoning_text cs).
Proof.
  induction cs as [|c cs IH]; intros m r Hr.
  - rewrite str_app_nil_r. exact Hr.
  - rewrite bot_updates_cons. destruct c; cbn [reasoning_text];
      try (apply IH; cbn; exact Hr).
    rewrite (IH _ (r ++ js_to_string chunk)); [rewrite str_app_assoc; reflexivity|].
    cbn. rewrite Hr. reflexivity.
Qed.

Lemma content_bot_updates (cs : list callback) : forall m,
  existsb is_error cs = false -> content (bot_updates cs m) = content m ++ content_text cs.
Proof.
  induction cs as [|c cs IH]; intros m H.
  - symmetry. apply str_app_nil_r.
  - cbn [existsb] in H. apply orb_false_iff in H as [H1 H2].
    rewrite bot_updates_cons, IH by exact H2.
    destruct c; try discriminate H1; cbn [content_text]; try reflexivity.
    cbn. rewrite str_app_assoc. reflexivity.
Qed.

Lemma content_bot_updates_nonempty (cs : list callback) : forall m,
  content m <> "" -> content (bot_updates cs m) <> "".
Proof.
  induction cs as [|c cs IH]; intros m H; [exact H|].
  rewrite bot_updates_cons. apply IH.
  destruct c; cbn; try exact H; try discriminate.
  destruct (content m); [congruence|discriminate].
Qed.

Lemma content_bot_updates_error (cs : list callback) : forall m,
  existsb is_error cs = true -> content (bot_updates cs m) <> "".
Proof.
  induction cs as [|c cs IH]; intros m H; [discriminate H|].
  rewrite bot_updates_cons. cbn [existsb] in H.
  destruct c; cbn [is_error orb] in H; try (apply IH; exact H).
  apply content_bot_updates_nonempty. cbn. discriminate.
Qed.

(** Lemmas on [trim]. *)

Lemma rev_string_app (a b acc : string) :
  rev_string (a ++ b) acc = rev_string b (rev_string a acc).
Proof. revert acc; induction a as [|c a IH]; intros acc; [reflexivity|]. apply IH. Qed.

Lemma rev_string_acc (s acc : string) : rev_string s acc = rev_string s "" ++ acc.
Proof.
  revert acc; induction s as [|c s IH]; intros acc; [reflexivity|].
  cbn [rev_string]. rewrite IH, (IH (String c "")), str_app_assoc. reflexivity.
Qed.

Lemma rev_string_involutive (s : string) : rev_string (rev_string s "") "" = s.
Proof.
  induction s as [|c s IH]; [reflexivity|].
  cbn [rev_string]. rewrite (rev_string_acc s (String c "")), rev_string_app, IH. reflexivity.
Qed.

Lemma all_ws_app (a b : string) : all_ws (a ++ b) = all_ws a && all_ws b.
Proof.
  induction a as [|c a IH]; [reflexivity|]. cbn. rewrite IH. apply andb_assoc.
Qed.

Lemma all_ws_rev (s : string) : all_ws (rev_string s "") = all_ws s.
Proof.
  induction s as [|c s IH]; [reflexivity|].
  cbn [rev_string all_ws]. rewrite rev_string_acc, all_ws_app, IH. cbn.
  rewrite andb_true_r. apply andb_comm.
Qed.

Lemma all_ws_trim_start (s : string) : all_ws (trim_start s) = all_ws s.
Proof.
  induction s as [|c s IH]; [reflexivity|]. cbn.
  destruct (is_ws c) eqn:E; [exact IH|cbn; rewrite E; reflexivity].
Qed.

Definition starts_ok (s : string) : Prop :=
  match s with EmptyString => True | String c _ => is_ws c = false end.

Definition ends_ok (s : string) : Prop :=
  s = "" \/ exists x c, s = x ++ String c "" /\ is_ws c = false.

Lemma trim_start_starts_ok (s : string) : starts_ok (trim_start s).
Proof.
  induction s as [|c s IH]; [exact I|]. cbn. destruct (is_ws c) eqn:E; [exact IH|exact E].
Qed.

Lemma trim_start_id (s : string) : starts_ok s -> trim_start s = s.
Proof. destruct s as [|c s]; [reflexivity|]. cbn. intros ->. reflexivity. Qed.

Lemma all_ws_starts_ok (s : string) : starts_ok s -> all_ws s = true -> s = "".
Proof. destruct s as [|c s]; [reflexivity|]. cbn. intros -> H. discriminate H. Qed.

Lemma trim_start_ends_ok (s : string) : ends_ok s -> ends_ok (trim_start s).
Proof.
  induction s as [|c s IH]; intros H; [exact H|]. cbn.
  destruct (is_ws c) eqn:E; [|exact H]. apply IH.
  destruct H as [H|(x & d & Hx & Hd)]; [discriminate H|].
  destruct x as [|c' x].
  - cbn in Hx. injection Hx as -> ->. congruence.
  - cbn in Hx. injection Hx as -> ->. right. exists x, d. split; [reflexivity|exact Hd].
Qed.

Lemma rev_starts_ends (s : string) : starts_ok s -> ends_ok (rev_string s "").
Proof.
  destruct s as [|c s]; intros H; [left; reflexivity|].
  right. exists (rev_string s ""), c. split; [|exact H].
  cbn [rev_string]. apply rev_string_acc.
Qed.

Lemma rev_ends_starts (s : string) : ends_ok s -> starts_ok (rev_string s "").
Proof.
  intros [->|(x & c & -> & H)]; [exact I|].
  rewrite rev_string_app. cbn. exact H.
Qed.

Lemma trim_trim (s : string) : trim (trim s) = trim s.
Proof.
  unfold trim.
  set (v := trim_start (rev_string (trim_start s) "")).
  assert (Hv : ends_ok v) by (apply trim_start_ends_ok, rev_starts_ends, trim_start_starts_ok).
  rewrite (trim_start_id (rev_string v "")) by (apply rev_ends_starts; exact Hv).
  rewrite rev_string_involutive.
  rewrite (trim_start_id v) by apply trim_start_starts_ok. reflexivity.
Qed.

Lemma trim_empty (s : string) : String.eqb (trim s) "" = all_ws s.
Proof.
  unfold trim.
  rewrite <- (all_ws_trim_start s), <- all_ws_rev, <- all_ws_trim_start.
  set (v := trim_start (rev_string (trim_start s) "")).
  assert (Hv : starts_ok v) by apply trim_start_starts_ok.
  destruct (all_ws v) eqn:E.
  - rewrite (all_ws_starts_ok v Hv E). reflexivity.
  - apply String.eqb_neq. intros H. rewrite <- (rev_string_involutive v), H in E.
    discriminate E.
Qed.

Lemma error_apply_callbacks_set (bot : string) (cs : list callback) : forall st,
  (existsb is_error cs = true \/ exists e, error st = Some e /\ e <> "") ->
  exists e, error (apply_callbacks bot st cs) = Some e /\ e <> "".
Proof.
  unfold apply_callbacks. induction cs as [|c cs IH]; intros st H.
  - destruct H as [H|H]; [discriminate H|exact H].
  - cbn [fold_left]. apply IH. cbn [existsb] in H.
    destruct c; cbn [is_error orb] in H; try (destruct H as [H|H]; [left; exact H|right; exact H]).
    right. cbn. destruct (String.eqb message "") eqn:E.
    + eexists; split; [reflexivity|discriminate].
    + eexists; split; [reflexivity|]. apply String.eqb_neq. exact E.
Qed.

Lemma handleSendMessage_sends (now : Z) (st : AppState) :
  all_ws (input st) = false -> isLoading st = false ->
  handleSendMessage now st =
  mkApp (messages st ++
         [mkMessage (string_of_Z now) User (trim (input st)) None now None None None;
          mkMessage (string_of_Z (now + 1)) Assistant "" (Some "") now None
                    (Some [mkStep "1" "Processing..." "in-progress"]) (Some true)])
        "" true None (Some (messages st, trim (input st))).
Proof.
  intros H1 H2. unfold handleSendMessage. rewrite trim_empty, H1, H2. reflexivity.
Qed.

(** X8: while a reply streams, the callbacks only ever change the bot
    message of that send: the earlier conversation and the user message
    stay as they are, and the bot message ends as the successive updates
    of the callbacks applied to the initial one; this holds as long as no
    earlier message has the bot message's id ([Date.now() + 1]). *)
Theorem stream_updates_only_bot_message (now : Z) (st : AppState) (cs : list callback) :
  all_ws (input st) = false -> isLoading st = false ->
  Forall (fun m => id m <> string_of_Z (now + 1)) (messages st) ->
  messages (apply_callbacks (string_of_Z (now + 1)) (handleSendMessage now st) cs) =
  (messages st ++
   [mkMessage (string_of_Z now) User (trim (input st)) None now None None None;
    bot_updates cs (mkMessage (string_of_Z (now + 1)) Assistant "" (Some "") now None
                      (Some [mkStep "1" "Processing..." "in-progress"]) (Some true))])%list.
Proof.
  intros H1 H2 H3. rewrite handleSendMessage_sends by assumption.
  rewrite messages_apply_callbacks. cbn [messages].
  rewrite update_msg_app, update_msg_fresh by exact H3. f_equal.
  unfold update_msg. cbn [map id].
  pose proof (string_of_Z_succ_neq now) as Hn. apply String.eqb_neq in Hn.
  rewrite Hn, String.eqb_refl. reflexivity.
Qed.

Lemma stream_updates_only_bot_message_witness :
  messages (apply_callbacks (string_of_Z (1000 + 1)) (handleSendMessage 1000 app_hello)
              [OnContent (JStr "Hi"); OnComplete]) =
  (messages app_hello ++
   [mkMessage (string_of_Z 1000) User (trim (input app_hello)) None 1000 None None None;
    bot_updates [OnContent (JStr "Hi"); OnComplete]
      (mkMessage (string_of_Z (1000 + 1)) Assistant "" (Some "") 1000 None
         (Some [mkStep "1" "Processing..." "in-progress"]) (Some true))])%list.
Proof.
  apply (stream_updates_only_bot_message 1000 app_hello [OnContent (JStr "Hi"); OnComplete]);
    [reflexivity | reflexivity | constructor].
Defined.

(** X9: after a send, the loading flag stays set until the first
    [onComplete] or [onError] and is cleared from then on; the error
    banner stays empty when no [onError] comes, and always holds a
    non-empty message once one has come. *)
Theorem send_loading_and_error (now : Z) (st : AppState) (cs : list callback) :
  all_ws (input st) = false -> isLoading st = false ->
  let st' := apply_callbacks (string_of_Z (now + 1)) (handleSendMessage now st) cs in
  isLoading st' = negb (existsb is_terminal cs) /\
  (existsb is_error cs = false -> error st' = None) /\
  (existsb is_error cs = true -> exists e, error st' = Some e /\ e <> "").
Proof.
  intros H1 H2 st'. subst st'. rewrite handleSendMessage_sends by assumption.
  split; [|split].
  - rewrite isLoading_apply_callbacks. destruct (existsb is_terminal cs); reflexivity.
  - intros H. rewrite error_apply_callbacks by exact H. reflexivity.
  - intros H. apply error_apply_callbacks_set. left. exact H.
Qed.

Lemma send_loading_and_error_witness :
  let st' := apply_callbacks (string_of_Z (1000 + 1)) (handleSendMessage 1000 app_hello)
               [OnContent (JStr "Hi"); OnError ""] in
  isLoading st' = negb (existsb is_terminal [OnContent (JStr "Hi"); OnError ""]) /\
  (existsb is_error [OnContent (JStr "Hi"); OnError ""] = false -> error st' = None) /\
  (existsb is_error [OnContent (JStr "Hi"); OnError ""] = true ->
   exists e, error st' = Some e /\ e <> "").
Proof.
  exact (send_loading_and_error 1000 app_hello [OnContent (JStr "Hi"); OnError ""]
           eq_refl eq_refl).
Defined.

(** X10: a send does nothing at all exactly when the input is only white
    space (or empty) or a reply is still loading. *)
Theorem blank_input_not_sent (now : Z) (st : AppState) :
  handleSendMessage now st = st <-> all_ws (input st) = true \/ isLoading st = true.
Proof.
  split.
  - intros H. destruct (all_ws (input st)) eqn:E1; [left; reflexivity|].
    destruct (isLoading st) eqn:E2; [right; reflexivity|].
    exfalso. rewrite handleSendMessage_sends in H by assumption.
    apply (f_equal (fun a => length (messages a))) in H. cbn [messages] in H.
    rewrite length_app in H. cbn [length] in H. lia.
  - intros H. unfold handleSendMessage. rewrite trim_empty.
    destruct H as [->| ->]; [reflexivity|]. rewrite orb_true_r. reflexivity.
Qed.

(** X11: retrying after a failed send (an [onError] and no [onComplete])
    and clicking send again resends the same trimmed text on top of the
    conversation as it was before the failed send: the failed user message
    and its error reply are dropped, and a fresh snapshot is taken. *)
Theorem retry_after_error_resends (now now' : Z) (st : AppState) (cs : list callback) :
  all_ws (input st) = false -> isLoading st = false ->
  existsb is_error cs = true -> existsb is_complete cs = false ->
  handleSendMessage now'
    (handleRetry (apply_callbacks (string_of_Z (now + 1)) (handleSendMessage now st) cs)) =
  mkApp (messages st ++
         [mkMessage (string_of_Z now') User (trim (input st)) None now' None None None;
          mkMessage (string_of_Z (now' + 1)) Assistant "" (Some "") now' None
                    (Some [mkStep "1" "Processing..." "in-progress"]) (Some true)])
        "" true None (Some (messages st, trim (input st))).
Proof.
  intros H1 H2 H3 H4.
  rewrite (handleSendMessage_sends now st H1 H2).
  set (st1 := apply_callbacks _ _ cs).
  assert (Hl : lastSend st1 = Some (messages st, trim (input st))).
  { subst st1. rewrite lastSend_apply_callbacks, H4. reflexivity. }
  assert (Hi : isLoading st1 = false).
  { subst st1. rewrite isLoading_apply_callbacks.
    replace (existsb is_terminal cs) with true; [reflexivity|].
    symmetry. apply existsb_exists. apply existsb_exists in H3 as (c & Hin & Hc).
    exists c. split; [exact Hin|]. destruct c; try discriminate Hc; reflexivity. }
  unfold handleRetry. rewrite Hl.
  rewrite handleSendMessage_sends; cbn [input messages isLoading];
    [rewrite trim_trim; reflexivity | | exact Hi].
  rewrite <- trim_empty, trim_trim, trim_empty. exact H1.
Qed.

Lemma retry_after_error_resends_witness :
  handleSendMessage 2000
    (handleRetry (apply_callbacks (string_of_Z (1000 + 1)) (handleSendMessage 1000 app_hello)
                    [OnContent (JStr "Hi"); OnError "boom"])) =
  mkApp (messages app_hello ++
         [mkMessage (string_of_Z 2000) User (trim (input app_hello)) None 2000 None None None;
          mkMessage (string_of_Z (2000 + 1)) Assistant "" (Some "") 2000 None
                    (Some [mkStep "1" "Processing..." "in-progress"]) (Some true)])
        "" true None (Some (messages app_hello, trim (input app_hello))).
Proof.
  apply (retry_after_error_resends 1000 2000 app_hello [OnContent (JStr "Hi"); OnError "boom"]);
    reflexivity.
Defined.

(** X12: the thinking indicator of the bot message shows "Processing..."
    until a sources list arrives and "Analyzing documents..." after it,
    and disappears for good at the first content delta, [onComplete] or
    [onError]. *)
Theorem thinking_indicator_progress (now : Z) (cs : list callback) :
  thinking_indicator
    (bot_updates cs (mkMessage (string_of_Z (now + 1)) Assistant "" (Some "") now None
                       (Some [mkStep "1" "Processing..." "in-progress"]) (Some true))) =
  if existsb (fun c => is_content c || is_terminal c) cs then None
  else Some (if existsb is_sources cs then "Analyzing documents..." else "Processing...").
Proof.
  unfold thinking_indicator. rewrite searchSteps_bot_updates, isThinking_bot_updates.
  cbn [searchSteps isThinking].
  destruct (existsb (fun c => is_content c || is_terminal c) cs);
    destruct (existsb is_sources cs); reflexivity.
Qed.

(** X13: the bot bubble shows its waiting dots exactly while no content,
    no reasoning text and no error has come, and shows its reasoning block
    exactly when the reasoning deltas are not empty. *)
Theorem bot_bubble_placeholders (now : Z) (cs : list callback) :
  let m := bot_updates cs (mkMessage (string_of_Z (now + 1)) Assistant "" (Some "") now None
                             (Some [mkStep "1" "Processing..." "in-progress"]) (Some true)) in
  waiting_dots m = negb (existsb is_error cs) && String.eqb (content_text cs) "" &&
                   String.eqb (reasoning_text cs) "" /\
  reasoning_block_shown m = negb (String.eqb (reasoning_text cs) "").
Proof.
  intros m.
  assert (Hr : reasoning m = Some (reasoning_text cs))
    by (subst m; apply (reasoning_bot_updates cs _ ""); reflexivity).
  assert (Hb : reasoning_block_shown m = negb (String.eqb (reasoning_text cs) ""))
    by (unfold reasoning_block_shown; rewrite Hr; reflexivity).
  split; [|exact Hb].
  unfold waiting_dots. subst m. rewrite role_bot_updates. cbn [msg_role].
  rewrite Hb, negb_involutive.
  destruct (existsb is_error cs) eqn:E.
  - pose proof (content_bot_updates_error cs
      (mkMessage (string_of_Z (now + 1)) Assistant "" (Some "") now None
         (Some [mkStep "1" "Processing..." "in-progress"]) (Some true)) E) as Hc.
    apply String.eqb_neq in Hc. rewrite Hc. reflexivity.
  - rewrite content_bot_updates by exact E. reflexivity.
Qed.

(** X14: confirming the deletion of the open chat resets the UI (and
    refreshes the history) but keeps the loading flag and the retry
    snapshot: callbacks of a reply still streaming leave the new empty
    conversation empty, clear the loading flag at their terminal callback,
    and a retry after a failure restores the deleted chat's snapshot. *)
Theorem delete_open_chat_mid_stream (now : Z) (c : Chat) (v : option json)
    (bot : string) (cs : list callback) :
  let c' := fst (confirmDelete now (sessionId c) (Resolved v) c) in
  let st := apply_callbacks bot (app c') cs in
  c' = resetUIState now c /\
  snd (confirmDelete now (sessionId c) (Resolved v) c) = [ReqDelete (sessionId c); ReqHistory] /\
  messages st = [] /\
  isLoading st = (if existsb is_terminal cs then false else isLoading (app c)) /\
  (existsb is_complete cs = false -> forall ms inp, lastSend (app c) = Some (ms, inp) ->
   messages (handleRetry st) = ms /\ input (handleRetry st) = inp).
Proof.
  intros c' st.
  assert (Hc : c' = resetUIState now c) by (subst c'; cbn; rewrite String.eqb_refl; reflexivity).
  split; [exact Hc|]. split; [reflexivity|].
  subst st. rewrite Hc. split; [|split].
  - rewrite messages_apply_callbacks. reflexivity.
  - rewrite isLoading_apply_callbacks. reflexivity.
  - intros H ms inp Hl. unfold handleRetry.
    rewrite lastSend_apply_callbacks, H. cbn [resetUIState app lastSend]. rewrite Hl.
    split; reflexivity.
Qed.

(** X15: a new chat saves the current one (a [saveChat], then, when it
    succeeds, the [getChatHistory] request of [refreshHistory]) only when
    it has at least two messages and was already saved; the UI is reset
    afterwards whether the save succeeded or failed and whether the history
    request succeeded or failed, and stays as it was only while the save,
    or the history request after a successful save, never settles. *)
Theorem new_chat_save_rule (now : Z) (save_res hist_res : api_outcome) (c : Chat) :
  let cond := (2 <=? length (messages (app c)))%nat && hasSavedCurrentChat c in
  (snd (handleNewChat now save_res hist_res c) <> [] <-> cond = true) /\
  fst (handleNewChat now save_res hist_res c) =
  if cond && match save_res with
             | Stuck => true
             | Resolved _ => match hist_res with Stuck => true | _ => false end
             | Rejected _ => false
             end
  then c
  else resetUIState now c.
Proof.
  intros cond. unfold handleNewChat, save_current. fold cond.
  destruct cond; [destruct save_res; [destruct hist_res| |]|]; cbn; split; try reflexivity;
    split; intros H; try congruence; discriminate.
Qed.

(** X16: loading a chat (while no reply is loading) never leaves an error
    on screen: [loadChat] turns a failed request into [null], so the
    ["Failed to load chat"] branch is never taken. Once the save of the
    current chat and the history refresh after it have settled (or were
    not needed), a failed request keeps the open conversation and its
    session and closes the sidebar, and a loaded chat replaces the
    messages and the session id. *)
Theorem load_chat_outcome (messages_of : json -> list Message) (chatId : string)
    (save_res hist_res get_res : api_outcome) (c : Chat) :
  isLoading (app c) = false ->
  let c' := fst (handleLoadChat messages_of chatId save_res hist_res get_res c) in
  error (app c') = None /\
  (save_res <> Stuck -> hist_res <> Stuck -> forall e, get_res = Rejected e ->
   messages (app c') = messages (app c) /\ sessionId c' = sessionId c /\
   isLoading (app c') = false /\ isSidebarOpen c' = false) /\
  (save_res <> Stuck -> hist_res <> Stuck ->
   forall d, get_res = Resolved (Some d) -> truthy (Some d) = true ->
   messages (app c') = messages_of d /\ sessionId c' = chatId /\
   hasSavedCurrentChat c' = true /\ isLoading (app c') = false).
Proof.
  intros Hl c'. subst c'. unfold handleLoadChat. rewrite Hl. unfold save_current.
  cbn [app messages set_error hasSavedCurrentChat sessionId].
  destruct ((2 <=? length (messages (app c)))%nat && hasSavedCurrentChat c);
    destruct save_res; destruct hist_res; destruct get_res as [[d|]| |]; cbn -[truthy];
    try destruct (truthy (Some d)) eqn:Et; cbn -[truthy];
    repeat match goal with
           | |- _ /\ _ => split
           | |- _ -> _ => intro
           | |- forall _, _ => intro
           | H : Stuck <> Stuck |- _ => exfalso; apply H; reflexivity
           | H : Resolved _ = Resolved _ |- _ => injection H as H; subst
           | H : _ = _ |- _ => discriminate H
           end; try reflexivity; congruence.
Qed.

Lemma load_chat_outcome_witness :
  let c := mkChat app_hello "s1" true None false in
  let c' := fst (handleLoadChat (fun _ => []) "s2" (Resolved None) (Resolved None)
                   (Rejected (OtherError (ExnValue "x"))) c) in
  error (app c') = None /\
  (Resolved None <> Stuck -> Resolved None <> Stuck ->
   forall e, Rejected (OtherError (ExnValue "x")) = Rejected e ->
   messages (app c') = messages (app c) /\ sessionId c' = sessionId c /\
   isLoading (app c') = false /\ isSidebarOpen c' = false) /\
  (Resolved None <> Stuck -> Resolved None <> Stuck ->
   forall d, Rejected (OtherError (ExnValue "x")) = Resolved (Some d) ->
   truthy (Some d) = true ->
   messages (app c') = (fun _ => []) d /\ sessionId c' = "s2" /\
   hasSavedCurrentChat c' = true /\ isLoading (app c') = false).
Proof.
  exact (load_chat_outcome (fun _ => []) "s2" (Resolved None) (Resolved None)
           (Rejected (OtherError (ExnValue "x")))
           (mkChat app_hello "s1" true None false) eq_refl).
Defined.





Lemma group_lookup_push (k k' : string) (chat : ChatSession) (g : list (string * list ChatSession)) :
  group_lookup k (push_group k' chat g) =
  if String.eqb k k'
  then Some ((match group_lookup k g with Some l => l | None => [] end) ++ [chat])%list
  else group_lookup k g.
Proof.
  induction g as [|[k0 l] g IH]; cbn.
  - destruct (String.eqb k k'); reflexivity.
  - destruct (String.eqb_spec k' k0) as [->|Hn]; cbn.
    + destruct (String.eqb k k0); reflexivity.
    + rewrite IH. destruct (String.eqb_spec k k0) as [->|Hk]; [|reflexivity].
      destruct (String.eqb_spec k0 k') as [->|_]; [congruence|reflexivity].
Qed.

Lemma group_history_lookup (key : ChatSession -> string) (k : string) (h : list ChatSession) :
  forall g,
  group_lookup k (fold_left (fun g chat => push_group (key chat) chat g) h g) =
  match group_lookup k g with
  | Some l => Some (l ++ filter (fun c => String.eqb (key c) k) h)%list
  | None => match filter (fun c => String.eqb (key c) k) h with
            | [] => None
            | l => Some l
            end
  end.
Proof.
  induction h as [|chat h IH]; intros g; cbn [fold_left filter].
  - destruct (group_lookup k g); [rewrite app_nil_r|]; reflexivity.
  - rewrite IH, group_lookup_push, (String.eqb_sym k (key chat)).
    destruct (String.eqb (key chat) k).
    + destruct (group_lookup k g); rewrite <- ?app_assoc; reflexivity.
    + reflexivity.
Qed.

Lemma sidebar_group (key : ChatSession -> string) (h : list ChatSession) (k : string) :
  match group_lookup k (group_history key h) with
  | Some l => if (0 <? length l)%nat then l else []
  | None => []
  end = filter (fun c => String.eqb (key c) k) h.
Proof.
  unfold group_history. rewrite group_history_lookup. cbn [group_lookup].
  destruct (filter (fun c => String.eqb (key c) k) h); reflexivity.
Qed.

(** X19: the sidebar lists every chat of the history exactly once: first
    the chats of today, then those of yesterday, then the older ones, each
    group in the order of the history list. *)
Theorem sidebar_lists_every_chat_once (toDateString : Z -> string) (today_ms yesterday_ms : Z)
    (h : list ChatSession) :
  let key := history_key toDateString today_ms yesterday_ms in
  sidebar_chats (group_history key h) =
  (filter (fun c => String.eqb (key c) "Today") h ++
   filter (fun c => String.eqb (key c) "Yesterday") h ++
   filter (fun c => String.eqb (key c) "Previous 30 Days") h)%list /\
  Permutation (sidebar_chats (group_history key h)) h.
Proof.
  intros key.
  assert (E : sidebar_chats (group_history key h) =
              (filter (fun c => String.eqb (key c) "Today") h ++
               filter (fun c => String.eqb (key c) "Yesterday") h ++
               filter (fun c => String.eqb (key c) "Previous 30 Days") h)%list).
  { unfold sidebar_chats, historyOrder. cbn [flat_map].
    rewrite !sidebar_group, app_nil_r. reflexivity. }
  split; [exact E|]. rewrite E. clear E.
  induction h as [|chat h IH]; [constructor|]. cbn [filter].
  assert (Hk : key chat = "Today" \/ key chat = "Yesterday" \/ key chat = "Previous 30 Days").
  { subst key. unfold history_key.
    destruct (String.eqb _ (toDateString today_ms)); [left; reflexivity|].
    destruct (String.eqb _ (toDateString yesterday_ms)); [right; left|right; right]; reflexivity. }
  destruct Hk as [-> | [-> | ->]]; cbn [String.eqb Ascii.eqb Bool.eqb andb].
  - cbn. constructor. exact IH.
  - cbn. symmetry. apply Permutation_cons_app. symmetry. exact IH.
  - cbn. rewrite app_assoc. symmetry. apply Permutation_cons_app. symmetry.
    rewrite <- app_assoc. exact IH.
Qed.
